(** * El Xolito Mex storefront: the cart ledger, the catalog lookup and the
      authenticated API client

    Shallow embedding of [landing-page/main.js] (the [Cart] class,
    [getProductById]), [landing-page/services/productService.js] and
    [landing-page/services/authService.js].

    Conventions of the embedding.
    - The ledger of the cart keeps its quantities and prices as
      integers, in [Z]: that is what the codec of [JSON] reads and
      writes, and the comparisons and the additions of one quantity to
      another are stated on them.  The two sums of the cart,
      [getTotal] and [getItemCount], are also given in the arithmetic
      of the program, IEEE 754 binary64 (module [Number], over
      [SpecFloat] of the Standard Library), where they round.
    - JavaScript strings are modelled by [string] (a sequence of bytes);
      lower-casing is that of the letters of ASCII.
    - [JSON.parse] reads the texts whose numbers are integer literals,
      which is every text that [JSON.stringify] writes here.
    - An [async] function that is awaited is run to completion: an
      [await] is the point where the awaited result becomes available,
      with no other task interleaved.  A call that the source starts
      and does not await ([logout()] in [getCurrentUser]) runs up to
      its first suspension; what is left of it is a value, to be run
      later.
    - [localStorage] is a finite map from keys to strings, without a
      quota.
    - The replies of the backend are typed after its interface: a JSON
      body is [{ success, message, data }].
    - The console keeps the text of each call, without its leading
      pictograph, and the value printed after it. *)

From Stdlib Require Import ZArith Lia List Ascii String.
From Stdlib Require Import DecimalString DecimalFacts DecimalZ.
From Stdlib Require Import SpecFloat.
From stdpp Require Import gmap strings list.

Local Open Scope Z_scope.

(* ===================================================================== *)
(** ** JSON values and the text codec behind [JSON.stringify] and
       [JSON.parse] *)
(* ===================================================================== *)

Module JSON.

#[local] Unset Elimination Schemes.

(** A JSON value.  An object keeps its members in text order. *)
Inductive json : Type :=
| JNull
| JBool (b : bool)
| JNum (z : Z)
| JStr (s : string)
| JArr (vs : list json)
| JObj (ms : list (string * json)).

#[local] Set Elimination Schemes.

(** Structural induction that reaches the elements of arrays and the
    members of objects. *)
Section json_induction.
Variable P : json -> Prop.
Hypothesis Hnull : P JNull.
Hypothesis Hbool : forall b, P (JBool b).
Hypothesis Hnum : forall z, P (JNum z).
Hypothesis Hstr : forall s, P (JStr s).
Hypothesis Harr : forall vs, Forall P vs -> P (JArr vs).
Hypothesis Hobj : forall ms, Forall (fun m => P (snd m)) ms -> P (JObj ms).

Fixpoint json_induction (v : json) : P v :=
  match v with
  | JNull => Hnull
  | JBool b => Hbool b
  | JNum z => Hnum z
  | JStr s => Hstr s
  | JArr vs =>
      Harr vs
        ((fix go (l : list json) : Forall P l :=
            match l with
            | [] => List.Forall_nil P
            | x :: l' => List.Forall_cons P x l' (json_induction x) (go l')
            end) vs)
  | JObj ms =>
      Hobj ms
        ((fix go (l : list (string * json))
            : Forall (fun m => P (snd m)) l :=
            match l with
            | [] => List.Forall_nil _
            | m :: l' =>
                List.Forall_cons (fun m => P (snd m)) m l'
                  (json_induction (snd m)) (go l')
            end) ms)
  end.
End json_induction.

Definition dquote : ascii := "034"%char.
Definition backslash : ascii := "092"%char.

Definition hex_digit (n : N) : ascii :=
  if (n <? 10)%N then ascii_of_N (48 + n) else ascii_of_N (87 + n).

(** One character of a string literal, written in front of [k]:
    the quote, the backslash and the control characters are escaped the
    way [JSON.stringify] escapes them. *)
Definition escape_char (c : ascii) (k : string) : string :=
  let n := N_of_ascii c in
  if Ascii.eqb c dquote then String backslash (String dquote k)
  else if Ascii.eqb c backslash then String backslash (String backslash k)
  else if (n =? 8)%N then String backslash (String "b" k)
  else if (n =? 12)%N then String backslash (String "f" k)
  else if (n =? 10)%N then String backslash (String "n" k)
  else if (n =? 13)%N then String backslash (String "r" k)
  else if (n =? 9)%N then String backslash (String "t" k)
  else if (n <? 32)%N then
    String backslash (String "u" (String "0" (String "0"
      (String (hex_digit (n / 16)) (String (hex_digit (n mod 16)) k)))))
  else String c k.

Fixpoint escape (s : string) (k : string) : string :=
  match s with
  | EmptyString => k
  | String c s' => escape_char c (escape s' k)
  end.

Definition quote (s : string) (k : string) : string :=
  String dquote (escape s (String dquote k)).

Definition print_number (z : Z) (k : string) : string :=
  NilZero.string_of_int (Z.to_int z) +:+ k.

(** [print v k] is the compact JSON text of [v] followed by [k]. *)
Fixpoint print (v : json) (k : string) : string :=
  match v with
  | JNull => String "n" (String "u" (String "l" (String "l" k)))
  | JBool true => String "t" (String "r" (String "u" (String "e" k)))
  | JBool false =>
      String "f" (String "a" (String "l" (String "s" (String "e" k))))
  | JNum z => print_number z k
  | JStr s => quote s k
  | JArr vs =>
      String "["
        match vs with
        | [] => String "]" k
        | v :: vs' =>
            print v
              ((fix tail (l : list json) : string :=
                  match l with
                  | [] => String "]" k
                  | x :: l' => String "," (print x (tail l'))
                  end) vs')
        end
  | JObj ms =>
      String "{"
        match ms with
        | [] => String "}" k
        | (key, v) :: ms' =>
            quote key (String ":" (print v
              ((fix tail (l : list (string * json)) : string :=
                  match l with
                  | [] => String "}" k
                  | (key', x) :: l' =>
                      String "," (quote key' (String ":" (print x (tail l'))))
                  end) ms')))
        end
  end.

Fixpoint print_elems (l : list json) (k : string) : string :=
  match l with
  | [] => String "]" k
  | x :: l' => String "," (print x (print_elems l' k))
  end.

Fixpoint print_members (l : list (string * json)) (k : string) : string :=
  match l with
  | [] => String "}" k
  | (key, x) :: l' =>
      String "," (quote key (String ":" (print x (print_members l' k))))
  end.

(** [JSON.stringify] on a JSON value. *)
Definition stringify (v : json) : string := print v EmptyString.

(** *** Parsing *)

Definition is_ws (c : ascii) : bool :=
  let n := N_of_ascii c in
  ((n =? 32) || (n =? 9) || (n =? 10) || (n =? 13))%N.

Fixpoint skip_ws (s : string) : string :=
  match s with
  | String c s' => if is_ws c then skip_ws s' else s
  | EmptyString => s
  end.

Definition is_digit (c : ascii) : bool :=
  let n := N_of_ascii c in ((48 <=? n) && (n <=? 57))%N.

Fixpoint span_digits (s : string) : string * string :=
  match s with
  | String c s' =>
      if is_digit c then
        let '(ds, r) := span_digits s' in (String c ds, r)
      else (EmptyString, s)
  | EmptyString => (EmptyString, EmptyString)
  end.

Definition leading_zero (ds : string) : bool :=
  match ds with
  | String c ds' =>
      Ascii.eqb c "0" && match ds' with EmptyString => false | _ => true end
  | EmptyString => false
  end.

(** An unsigned integer literal: at least one digit, no leading zero. *)
Definition parse_digits (s : string) : option (Decimal.uint * string) :=
  let '(ds, r) := span_digits s in
  if leading_zero ds then None
  else
    match ds with
    | EmptyString => None
    | _ =>
        match NilEmpty.uint_of_string ds with
        | Some d => Some (d, r)
        | None => None
        end
    end.

(** An integer literal.  A fraction or an exponent is left unread, and
    the text that holds one is rejected by the caller. *)
Definition parse_number (s : string) : option (Z * string) :=
  match s with
  | String c s' =>
      if Ascii.eqb c "-" then
        match parse_digits s' with
        | Some (d, r) => Some (Z.of_int (Decimal.Neg d), r)
        | None => None
        end
      else
        match parse_digits s with
        | Some (d, r) => Some (Z.of_int (Decimal.Pos d), r)
        | None => None
        end
  | EmptyString => None
  end.

Definition hex_value (c : ascii) : option N :=
  let n := N_of_ascii c in
  if ((48 <=? n) && (n <=? 57))%N then Some (n - 48)%N
  else if ((97 <=? n) && (n <=? 102))%N then Some (n - 87)%N
  else if ((65 <=? n) && (n <=? 70))%N then Some (n - 55)%N
  else None.

(** The character an escape sequence [\e] stands for. *)
Definition unescape (e : ascii) : option ascii :=
  if Ascii.eqb e dquote then Some dquote
  else if Ascii.eqb e backslash then Some backslash
  else if Ascii.eqb e "/" then Some "/"%char
  else if Ascii.eqb e "b" then Some (ascii_of_N 8)
  else if Ascii.eqb e "f" then Some (ascii_of_N 12)
  else if Ascii.eqb e "n" then Some (ascii_of_N 10)
  else if Ascii.eqb e "r" then Some (ascii_of_N 13)
  else if Ascii.eqb e "t" then Some (ascii_of_N 9)
  else None.

Definition cons_fst (c : ascii) (r : option (string * string))
  : option (string * string) :=
  match r with
  | Some (s, rest) => Some (String c s, rest)
  | None => None
  end.

(** The body of a string literal, after its opening quote, up to and
    including the closing quote.  A [\uXXXX] escape is read when it
    denotes a byte. *)
Fixpoint parse_string_body (s : string) : option (string * string) :=
  match s with
  | EmptyString => None
  | String c s' =>
      if Ascii.eqb c dquote then Some (EmptyString, s')
      else if Ascii.eqb c backslash then
        match s' with
        | String "u" (String h1 (String h2 (String h3 (String h4 s'')))) =>
            match hex_value h1, hex_value h2, hex_value h3, hex_value h4 with
            | Some 0%N, Some 0%N, Some a, Some b =>
                cons_fst (ascii_of_N (16 * a + b)) (parse_string_body s'')
            | _, _, _, _ => None
            end
        | String e s'' =>
            match unescape e with
            | Some c' => cons_fst c' (parse_string_body s'')
            | None => None
            end
        | EmptyString => None
        end
      else if (N_of_ascii c <? 32)%N then None
      else cons_fst c (parse_string_body s')
  end.

Definition parse_literal (s : string) : option (json * string) :=
  match s with
  | String "n" (String "u" (String "l" (String "l" r))) => Some (JNull, r)
  | String "t" (String "r" (String "u" (String "e" r))) => Some (JBool true, r)
  | String "f" (String "a" (String "l" (String "s" (String "e" r)))) =>
      Some (JBool false, r)
  | _ => None
  end.

Fixpoint parse_value (fuel : nat) (s : string) {struct fuel}
  : option (json * string) :=
  match fuel with
  | O => None
  | S n =>
      match s with
      | String c r =>
          if is_digit c || Ascii.eqb c "-" then
            match parse_number s with
            | Some (z, r') => Some (JNum z, r')
            | None => None
            end
          else if Ascii.eqb c dquote then
            match parse_string_body r with
            | Some (str, r') => Some (JStr str, r')
            | None => None
            end
          else if Ascii.eqb c "[" then
            match skip_ws r with
            | String c' r' =>
                if Ascii.eqb c' "]" then Some (JArr [], r')
                else
                  match parse_value n (String c' r') with
                  | Some (v, r'') =>
                      match parse_elems n r'' with
                      | Some (vs, r3) => Some (JArr (v :: vs), r3)
                      | None => None
                      end
                  | None => None
                  end
            | EmptyString => None
            end
          else if Ascii.eqb c "{" then
            match skip_ws r with
            | String c' r' =>
                if Ascii.eqb c' "}" then Some (JObj [], r')
                else
                  match parse_member n (String c' r') with
                  | Some (m, r'') =>
                      match parse_members n r'' with
                      | Some (ms, r3) => Some (JObj (m :: ms), r3)
                      | None => None
                      end
                  | None => None
                  end
            | EmptyString => None
            end
          else parse_literal s
      | EmptyString => None
      end
  end

with parse_elems (fuel : nat) (s : string) {struct fuel}
  : option (list json * string) :=
  match fuel with
  | O => None
  | S n =>
      match skip_ws s with
      | String "]" r => Some ([], r)
      | String "," r =>
          match parse_value n (skip_ws r) with
          | Some (v, r') =>
              match parse_elems n r' with
              | Some (vs, r'') => Some (v :: vs, r'')
              | None => None
              end
          | None => None
          end
      | _ => None
      end
  end

with parse_member (fuel : nat) (s : string) {struct fuel}
  : option ((string * json) * string) :=
  match fuel with
  | O => None
  | S n =>
      match s with
      | String c r =>
          if Ascii.eqb c dquote then
            match parse_string_body r with
            | Some (key, r') =>
                match skip_ws r' with
                | String ":" r'' =>
                    match parse_value n (skip_ws r'') with
                    | Some (v, r3) => Some ((key, v), r3)
                    | None => None
                    end
                | _ => None
                end
            | None => None
            end
          else None
      | EmptyString => None
      end
  end

with parse_members (fuel : nat) (s : string) {struct fuel}
  : option (list (string * json) * string) :=
  match fuel with
  | O => None
  | S n =>
      match skip_ws s with
      | String "}" r => Some ([], r)
      | String "," r =>
          match parse_member n (skip_ws r) with
          | Some (m, r') =>
              match parse_members n r' with
              | Some (ms, r'') => Some (m :: ms, r'')
              | None => None
              end
          | None => None
          end
      | _ => None
      end
  end.

(** Recursion depth that reading back the text of a value takes. *)
Fixpoint need (v : json) : nat :=
  match v with
  | JArr (v :: vs) =>
      S (need v +
         (fix go (l : list json) : nat :=
            match l with
            | [] => 1
            | x :: l' => S (need x + go l')
            end) vs)
  | JObj ((_, v) :: ms) =>
      S (S (need v) +
         (fix go (l : list (string * json)) : nat :=
            match l with
            | [] => 1
            | (_, x) :: l' => S (S (need x) + go l')
            end) ms)
  | _ => 1
  end%nat.

Fixpoint need_elems (l : list json) : nat :=
  match l with
  | [] => 1
  | x :: l' => S (need x + need_elems l')
  end%nat.

Fixpoint need_members (l : list (string * json)) : nat :=
  match l with
  | [] => 1
  | (_, x) :: l' => S (S (need x) + need_members l')
  end%nat.

(** A text that does not begin with a digit ends an integer literal. *)
Definition no_digit_head (k : string) : Prop :=
  match k with
  | String c _ => is_digit c = false
  | EmptyString => True
  end.

(** The first character of a printed value: it starts a value, and is
    neither blank nor a closing bracket. *)
Definition value_head (c : ascii) : Prop :=
  is_ws c = false /\ Ascii.eqb c "]" = false /\ Ascii.eqb c "}" = false.

(** [JSON.parse]: [None] stands for the [SyntaxError] it throws.  The
    texts read are the JSON texts whose numbers are integer literals and
    whose [\u] escapes denote one byte, which is every text
    [JSON.stringify] writes here; a text with a fraction, an exponent or
    a wider escape is turned down like a malformed one. *)
Definition parse (s : string) : option json :=
  match parse_value (S (S (String.length s))) (skip_ws s) with
  | Some (v, r) =>
      match skip_ws r with
      | EmptyString => Some v
      | _ => None
      end
  | None => None
  end.

End JSON.

Import JSON.



(* ===================================================================== *)
(** ** Data model *)
(* ===================================================================== *)

(** An entry of a product's [imagenes] array. *)
Record Imagen := { ruta : string; es_principal : bool }.

(** A product as the backend sends it ([data.product]). *)
Module Api.
Record product := {
  id : string;
  nombre : string;
  categoria_slug : option string;
  categoria_nombre : option string;
  precio : Z;
  precio_anterior : option Z;
  material : option string;
  color : option string;
  destacado : bool;
  image : option string;
  imagenes : option (list Imagen);
  stock : option Z;
  descripcion_corta : option string;
  descripcion_larga : option string;
  slug : option string
}.
End Api.

(** A product in the shape the front end works with, as
    [formatProductForFrontend] builds it. *)
Record Product := {
  id : string;
  name : string;
  category : option string;
  price : Z;
  precio_anterior : option Z;
  material : option string;
  color : option string;
  featured : bool;
  image : string;
  imagenes : list Imagen;
  stock : option Z;
  descripcion_corta : option string;
  descripcion_larga : option string;
  slug : option string
}.

(** A cart line, [{ ...product, quantity }]: the product fields copied
    when the line was created, and the quantity. *)
Record CartLine := { snapshot : Product; quantity : Z }.

(** [item.id], [item.price] on a cart line. *)
Definition line_id (item : CartLine) : string := id (snapshot item).
Definition line_price (item : CartLine) : Z := price (snapshot item).

(** *** Truthiness of the values the code tests *)

Definition truthy_string (s : string) : bool :=
  match s with EmptyString => false | _ => true end.

Definition truthy (o : option string) : bool :=
  match o with Some s => truthy_string s | None => false end.

(** [a || b] on strings that may be absent. *)
Definition or_else (a : option string) (b : string) : string :=
  match a with
  | Some s => if truthy_string s then s else b
  | None => b
  end.

(** *** The cart as JSON *)

Definition json_of_option {A} (f : A -> json) (o : option A) : json :=
  match o with Some a => f a | None => JNull end.

Definition json_of_imagen (i : Imagen) : json :=
  JObj [("ruta", JStr (ruta i)); ("es_principal", JBool (es_principal i))].

(** The object [JSON.stringify] sees for a cart line.  A field that holds
    no value is written as [null]. *)
Definition json_of_line (item : CartLine) : json :=
  let p := snapshot item in
  JObj [("id", JStr (id p));
        ("name", JStr (name p));
        ("category", json_of_option JStr (category p));
        ("price", JNum (price p));
        ("precio_anterior", json_of_option JNum (precio_anterior p));
        ("material", json_of_option JStr (material p));
        ("color", json_of_option JStr (color p));
        ("featured", JBool (featured p));
        ("image", JStr (image p));
        ("imagenes", JArr (map json_of_imagen (imagenes p)));
        ("stock", json_of_option JNum (stock p));
        ("descripcion_corta", json_of_option JStr (descripcion_corta p));
        ("descripcion_larga", json_of_option JStr (descripcion_larga p));
        ("slug", json_of_option JStr (slug p));
        ("quantity", JNum (quantity item))].

Definition json_of_items (l : list CartLine) : json :=
  JArr (map json_of_line l).

(** [obj.key]: the last member of that name, [None] for [undefined]. *)
Fixpoint get_field (key : string) (ms : list (string * json)) : option json :=
  match ms with
  | [] => None
  | (k, v) :: ms' =>
      match get_field key ms' with
      | Some v' => Some v'
      | None => if String.eqb key k then Some v else None
      end
  end.

Definition as_string (o : option json) : option string :=
  match o with Some (JStr s) => Some s | _ => None end.
Definition as_number (o : option json) : option Z :=
  match o with Some (JNum z) => Some z | _ => None end.
Definition as_bool (o : option json) : option bool :=
  match o with Some (JBool b) => Some b | _ => None end.

(** A field that may hold [null] or be missing. *)
Definition as_nullable {A} (f : option json -> option A) (o : option json)
  : option (option A) :=
  match o with
  | None | Some JNull => Some None
  | _ => match f o with Some a => Some (Some a) | None => None end
  end.

Definition imagen_of_json (v : json) : option Imagen :=
  match v with
  | JObj ms =>
      match as_string (get_field "ruta" ms),
            as_bool (get_field "es_principal" ms) with
      | Some r, Some b => Some {| ruta := r; es_principal := b |}
      | _, _ => None
      end
  | _ => None
  end.

Fixpoint all_some {A B} (f : A -> option B) (l : list A) : option (list B) :=
  match l with
  | [] => Some []
  | a :: l' =>
      match f a, all_some f l' with
      | Some b, Some bs => Some (b :: bs)
      | _, _ => None
      end
  end.

Definition imagenes_of_json (o : option json) : option (list Imagen) :=
  match o with
  | Some (JArr vs) => all_some imagen_of_json vs
  | _ => None
  end.

(** The cart line a parsed JSON value stands for, when it is one. *)
Definition line_of_json (v : json) : option CartLine :=
  match v with
  | JObj ms =>
      match as_string (get_field "id" ms),
            as_string (get_field "name" ms),
            as_nullable as_string (get_field "category" ms),
            as_number (get_field "price" ms),
            as_nullable as_number (get_field "precio_anterior" ms),
            as_nullable as_string (get_field "material" ms),
            as_nullable as_string (get_field "color" ms),
            as_bool (get_field "featured" ms) with
      | Some i, Some n, Some c, Some p, Some pa, Some m, Some co, Some f =>
          match as_string (get_field "image" ms),
                imagenes_of_json (get_field "imagenes" ms),
                as_nullable as_number (get_field "stock" ms),
                as_nullable as_string (get_field "descripcion_corta" ms),
                as_nullable as_string (get_field "descripcion_larga" ms),
                as_nullable as_string (get_field "slug" ms),
                as_number (get_field "quantity" ms) with
          | Some im, Some ims, Some st, Some dc, Some dl, Some sl, Some q =>
              Some {| snapshot :=
                        {| id := i; name := n; category := c; price := p;
                           precio_anterior := pa; material := m; color := co;
                           featured := f; image := im; imagenes := ims;
                           stock := st; descripcion_corta := dc;
                           descripcion_larga := dl; slug := sl |};
                      quantity := q |}
          | _, _, _, _, _, _, _ => None
          end
      | _, _, _, _, _, _, _, _ => None
      end
  | _ => None
  end.

Definition items_of_json (vs : list json) : option (list CartLine) :=
  all_some line_of_json vs.

(* ===================================================================== *)
(** ** The browser environment and the effects of the code *)
(* ===================================================================== *)

(** What a [throw] carries. *)
Inductive JsError :=
| Error (msg : string)     (* [new Error(msg)] *)
| TypeError (msg : string) (* a property read on [null] or [undefined],
                              or a call of something that is no function *)
| SyntaxError              (* [JSON.parse], [response.json()] *)
| FetchFailed.             (* [fetch] rejected: the network is down *)

Definition error_message (e : JsError) : string :=
  match e with
  | Error msg | TypeError msg => msg
  | SyntaxError => "Unexpected token"
  | FetchFailed => "Failed to fetch"
  end.

Inductive Level := Log | Warn | Err.

(** A line written on the console: its level, its text, and the value
    printed after it. *)
Record LogEntry := { level : Level; text : string; detail : option string }.

(** A request as [fetch] sends it. *)
Record Request := {
  url : string;
  method : string;
  authorization : option string;
  body : option string
}.

(** The [data] member of a reply. *)
Inductive Data :=
| ProductData (product : option Api.product)
| SessionData (accessToken : option string) (refreshToken : option string)
              (user : option json).

(** The JSON body of a reply, [{ success, message, data }]. *)
Record Body := { success : bool; message : option string; data : option Data }.

(** [data.product], [data.accessToken] and [data.user]: [undefined] when
    the member is not there. *)
Definition data_product (d : Data) : option Api.product :=
  match d with ProductData p => p | SessionData _ _ _ => None end.
Definition data_accessToken (d : Data) : option string :=
  match d with SessionData t _ _ => t | ProductData _ => None end.
Definition data_user (d : Data) : option json :=
  match d with SessionData _ _ u => u | ProductData _ => None end.
Definition data_refreshToken (d : Data) : option string :=
  match d with SessionData _ t _ => t | ProductData _ => None end.

(** A response; [json_body] is [None] when the body is not JSON. *)
Record Response := {
  ok : bool;
  status : Z;
  statusText : string;
  json_body : option Body
}.

Inductive Reply := Rejected | Replied (r : Response).

(** One row of the cart modal. *)
Record LineView := {
  view_id : string;
  view_name : string;
  view_image : string;
  view_price : Z;
  view_quantity : Z;
  view_subtotal : Z
}.

Inductive ModalView :=
| EmptyView
| CartView (rows : list LineView) (total : Z).

(** What one run of [updateCartUI] puts on the page: the counter of the
    cart buttons and, when the page has the cart modal, its content. *)
Record Projection := { data_count : Z; modal : option ModalView }.

Record World := {
  localStorage : gmap string string;
  PRODUCTS : list Product;          (* the catalog cache *)
  productService : bool;            (* [window.productService] is set *)
  server : Request -> Reply;        (* the backend behind [fetch] *)
  cart_modal : bool;                (* the page has the cart modal *)
  items : list CartLine;            (* [cart.items] *)
  requests : list Request;          (* the requests sent *)
  console : list LogEntry;
  screen : list Projection          (* the runs of [updateCartUI] *)
}.

Definition set_localStorage (f : gmap string string -> gmap string string)
  (w : World) : World :=
  {| localStorage := f (localStorage w); PRODUCTS := PRODUCTS w;
     productService := productService w; server := server w;
     cart_modal := cart_modal w; items := items w; requests := requests w;
     console := console w; screen := screen w |}.

Definition set_items (l : list CartLine) (w : World) : World :=
  {| localStorage := localStorage w; PRODUCTS := PRODUCTS w;
     productService := productService w; server := server w;
     cart_modal := cart_modal w; items := l; requests := requests w;
     console := console w; screen := screen w |}.

Definition add_request (r : Request) (w : World) : World :=
  {| localStorage := localStorage w; PRODUCTS := PRODUCTS w;
     productService := productService w; server := server w;
     cart_modal := cart_modal w; items := items w;
     requests := requests w ++ [r];
     console := console w; screen := screen w |}.

Definition add_console (e : LogEntry) (w : World) : World :=
  {| localStorage := localStorage w; PRODUCTS := PRODUCTS w;
     productService := productService w; server := server w;
     cart_modal := cart_modal w; items := items w; requests := requests w;
     console := console w ++ [e]; screen := screen w |}.

Definition add_screen (p : Projection) (w : World) : World :=
  {| localStorage := localStorage w; PRODUCTS := PRODUCTS w;
     productService := productService w; server := server w;
     cart_modal := cart_modal w; items := items w; requests := requests w;
     console := console w; screen := screen w ++ [p] |}.

(** *** Computations: a state over [World], with [throw] *)

Inductive Result (A : Type) :=
| Return (a : A)
| Throw (e : JsError).
Arguments Return {A} a.
Arguments Throw {A} e.

Definition M (A : Type) : Type := World -> Result A * World.

#[export] Instance M_ret : MRet M := fun A a w => (Return a, w).

#[export] Instance M_bind : MBind M := fun A B f m w =>
  match m w with
  | (Return a, w') => f a w'
  | (Throw e, w') => (Throw e, w')
  end.

Definition throw {A} (e : JsError) : M A := fun w => (Throw e, w).

(** [try { m } catch (e) { h e }] *)
Definition try_catch {A} (m : M A) (h : JsError -> M A) : M A := fun w =>
  match m w with
  | (Return a, w') => (Return a, w')
  | (Throw e, w') => h e w'
  end.

(** [try { m } finally { f }] *)
Definition try_finally {A} (m : M A) (f : M unit) : M A := fun w =>
  match m w with
  | (r, w') =>
      match f w' with
      | (Return _, w'') => (r, w'')
      | (Throw e, w'') => (Throw e, w'')
      end
  end.

Definition get {A} (f : World -> A) : M A := fun w => (Return (f w), w).
Definition modify (f : World -> World) : M unit := fun w => (Return tt, f w).

Module LocalStorage.
Definition getItem (key : string) : M (option string) :=
  get (fun w => localStorage w !! key).
Definition setItem (key value : string) : M unit :=
  modify (set_localStorage (insert key value)).
Definition removeItem (key : string) : M unit :=
  modify (set_localStorage (delete key)).
End LocalStorage.

Module Console.
Definition log (t : string) (d : option string) : M unit :=
  modify (add_console {| level := Log; text := t; detail := d |}).
Definition warn (t : string) (d : option string) : M unit :=
  modify (add_console {| level := Warn; text := t; detail := d |}).
Definition error (t : string) (d : option string) : M unit :=
  modify (add_console {| level := Err; text := t; detail := d |}).
End Console.

(** [await fetch(url, config)]: the request goes out, and the call throws
    when it is rejected. *)
Definition fetch (r : Request) : M Response := fun w =>
  let w' := add_request r w in
  match server w r with
  | Rejected => (Throw FetchFailed, w')
  | Replied resp => (Return resp, w')
  end.

(** [await response.json()] *)
Definition response_json (r : Response) : M Body :=
  match json_body r with
  | Some b => mret b
  | None => throw SyntaxError
  end.

Definition API_BASE_URL : string := "http://localhost:3000/api".

(** [...(token && { 'Authorization': `Bearer ${token}` })] *)
Definition bearer (token : option string) : option string :=
  if truthy token then Some ("Bearer " +:+ default EmptyString token) else None.

(** [String(x)] on a value that may be [null] or [undefined]. *)
Definition string_or (absent : string) (o : option string) : string :=
  match o with Some s => s | None => absent end.

Definition decimal (z : Z) : string := print_number z EmptyString.

(* ===================================================================== *)
(** ** [services/productService.js] *)
(* ===================================================================== *)

Module ProductService.

(** [apiRequest(endpoint)], as the product service declares it. *)
Definition apiRequest (endpoint : string) : M Body :=
  token ← LocalStorage.getItem "accessToken";
  let config :=
    {| url := API_BASE_URL +:+ endpoint; method := "GET";
       authorization := bearer token; body := None |} in
  try_catch
    (Console.log ("Haciendo petición a: " +:+ API_BASE_URL +:+ endpoint) None;;
     response ← fetch config;
     if negb (ok response) then
       Console.error
         ("Error HTTP: " +:+ decimal (status response) +:+ " "
            +:+ statusText response) None;;
       (* [await response.json().catch(() => ({}))] *)
       let errorData_message :=
         match json_body response with
         | Some b => message b
         | None => None
         end in
       throw (Error (or_else errorData_message
                       ("Error " +:+ decimal (status response) +:+ ": "
                          +:+ statusText response)))
     else
       data ← response_json response;
       Console.log ("Respuesta recibida de " +:+ endpoint +:+ ":") None;;
       mret data)
    (fun error =>
       Console.error ("Error en API request a " +:+ endpoint +:+ ":")
         (Some (error_message error));;
       Console.error
         "   Verifica que el servidor backend esté corriendo en http://localhost:3000"
         None;;
       throw error).

(** The object [getProductById] resolves to. *)
Record Lookup := {
  lookup_success : bool;
  lookup_message : option string;
  lookup_product : option Api.product
}.

Definition getProductById (id : string) : M Lookup :=
  try_catch
    (response ← apiRequest ("/products/" +:+ id);
     if success response then
       match data response with
       | Some d =>
           mret {| lookup_success := true; lookup_message := None;
                   lookup_product := data_product d |}
       | None =>
           throw (TypeError "Cannot read properties of undefined (reading 'product')")
       end
     else throw (Error (or_else (message response) "Producto no encontrado")))
    (fun error =>
       Console.error "Error al obtener producto:" (Some (error_message error));;
       mret {| lookup_success := false;
               lookup_message :=
                 Some (or_else (Some (error_message error))
                         "Error al obtener producto");
               lookup_product := None |}).

Definition getMainImage (product : Api.product) : string :=
  match Api.imagenes product with
  | None | Some [] => or_else (Api.image product) "assets/placeholder.jpg"
  | Some (first :: rest) =>
      match List.find es_principal (first :: rest) with
      | Some mainImage => ruta mainImage
      | None => ruta first
      end
  end.

Definition lower_char (c : ascii) : ascii :=
  let n := N_of_ascii c in
  if ((65 <=? n) && (n <=? 90))%N then ascii_of_N (n + 32) else c.

Fixpoint toLowerCase (s : string) : string :=
  match s with
  | EmptyString => EmptyString
  | String c s' => String (lower_char c) (toLowerCase s')
  end.

Definition formatProductForFrontend (apiProduct : Api.product) : Product :=
  {| id := Api.id apiProduct;
     name := Api.nombre apiProduct;
     category :=
       if truthy (Api.categoria_slug apiProduct)
       then Api.categoria_slug apiProduct
       else option_map toLowerCase (Api.categoria_nombre apiProduct);
     price := Api.precio apiProduct;
     precio_anterior := Api.precio_anterior apiProduct;
     material := Api.material apiProduct;
     color := Api.color apiProduct;
     featured := Api.destacado apiProduct;
     image := getMainImage apiProduct;
     imagenes := default [] (Api.imagenes apiProduct);
     stock := Api.stock apiProduct;
     descripcion_corta := Api.descripcion_corta apiProduct;
     descripcion_larga := Api.descripcion_larga apiProduct;
     slug := Api.slug apiProduct |}.

End ProductService.

(* ===================================================================== *)
(** ** [main.js]: the catalog lookup and the cart *)
(* ===================================================================== *)

(** [PRODUCTS.find(p => p.id === id)] *)
Definition find_product (productId : string) (l : list Product) : option Product :=
  List.find (fun p => String.eqb (id p) productId) l.

Definition getProductById (productId : string) : M (option Product) :=
  cache ← get PRODUCTS;
  match find_product productId cache with
  | Some cachedProduct => mret (Some cachedProduct)
  | None =>
      try_catch
        (available ← get productService;
         if (available : bool) then
           result ← ProductService.getProductById productId;
           match ProductService.lookup_success result,
                 ProductService.lookup_product result with
           | true, Some product =>
               mret (Some (ProductService.formatProductForFrontend product))
           | _, _ => mret None
           end
         else mret None)
        (fun error =>
           Console.error "Error al obtener producto:" (Some (error_message error));;
           mret None)
  end.

(** [items.find(item => item.id === productId)] *)
Definition find_item (productId : string) (l : list CartLine) : option CartLine :=
  List.find (fun item => String.eqb (line_id item) productId) l.

(** An assignment to the object that [find_item] returned: the first line
    of that id is changed in place. *)
Fixpoint update_item (productId : string) (f : CartLine -> CartLine)
  (l : list CartLine) : list CartLine :=
  match l with
  | [] => []
  | item :: l' =>
      if String.eqb (line_id item) productId then f item :: l'
      else item :: update_item productId f l'
  end.

Definition set_quantity (q : Z) (item : CartLine) : CartLine :=
  {| snapshot := snapshot item; quantity := q |}.

Definition add_quantity (q : Z) (item : CartLine) : CartLine :=
  {| snapshot := snapshot item; quantity := quantity item + q |}.

Definition view_of_line (item : CartLine) : LineView :=
  {| view_id := line_id item;
     view_name := name (snapshot item);
     view_image := image (snapshot item);
     view_price := line_price item;
     view_quantity := quantity item;
     view_subtotal := line_price item * quantity item |}.

(** What the outcome of [new Cart()] is. *)
Inductive Construction :=
| Ready                  (* the constructor returned *)
| Crashed (e : JsError)  (* the constructor threw *)
| Foreign (v : json).    (* the stored array holds something else than
                            cart lines *)

Module Cart.

Definition loadFromStorage : M json :=
  try_catch
    (stored ← LocalStorage.getItem "cart";
     match JSON.parse (or_else stored "[]") with
     | Some v => mret v
     | None => throw SyntaxError
     end)
    (fun _ => mret (JArr [])).

Definition saveToStorage : M unit :=
  l ← get items;
  LocalStorage.setItem "cart" (JSON.stringify (json_of_items l)).

(** The two sums over the integers of the ledger, as [updateCartUI]
    shows them; they are given in the arithmetic of the program, where
    they round, in [Double] below. *)
Definition getTotal : M Z :=
  l ← get items;
  mret (fold_left (fun total item => total + line_price item * quantity item) l 0).

Definition getItemCount : M Z :=
  l ← get items;
  mret (fold_left (fun total item => total + quantity item) l 0).

Definition updateCartUI : M unit :=
  count ← getItemCount;
  has_modal ← get cart_modal;
  l ← get items;
  if (has_modal : bool) then
    match l with
    | [] =>
        modify (add_screen {| data_count := count; modal := Some EmptyView |})
    | _ =>
        total ← getTotal;
        modify (add_screen
                  {| data_count := count;
                     modal := Some (CartView (map view_of_line l) total) |})
    end
  else modify (add_screen {| data_count := count; modal := None |}).

Definition addItem (productId : string) (quantity : Z) : M unit :=
  cache ← get PRODUCTS;
  product ←
    match find_product productId cache with
    | Some p => mret (Some p)
    | None => getProductById productId
    end;
  match product with
  | None => Console.warn "Producto no encontrado:" (Some productId)
  | Some product =>
      l ← get items;
      match find_item productId l with
      | Some existingItem =>
          modify (set_items (update_item productId (add_quantity quantity) l))
      | None =>
          modify (set_items (l ++ [{| snapshot := product; quantity := quantity |}]))
      end;;
      saveToStorage;;
      updateCartUI
  end.

Definition removeItem (productId : string) : M unit :=
  l ← get items;
  modify (set_items
            (List.filter (fun item => negb (String.eqb (line_id item) productId)) l));;
  saveToStorage;;
  updateCartUI.

Definition updateQuantity (productId : string) (quantity : Z) : M unit :=
  l ← get items;
  match find_item productId l with
  | Some item =>
      if (quantity <=? 0)%Z then removeItem productId
      else
        modify (set_items (update_item productId (set_quantity quantity) l));;
        saveToStorage;;
        updateCartUI
  | None => mret tt
  end.

(** [new Cart()]: [this.items = this.loadFromStorage()], then
    [this.updateCartUI()], whose first use of the list is
    [this.items.reduce(...)]. *)
Definition constructor (w : World) : Construction * World :=
  match loadFromStorage w with
  | (Throw e, w1) => (Crashed e, w1)
  | (Return (JArr vs), w1) =>
      match items_of_json vs with
      | Some l =>
          match updateCartUI (set_items l w1) with
          | (Return _, w2) => (Ready, w2)
          | (Throw e, w2) => (Crashed e, w2)
          end
      | None => (Foreign (JArr vs), w1)
      end
  | (Return JNull, w1) =>
      (Crashed (TypeError "Cannot read properties of null (reading 'reduce')"), w1)
  | (Return _, w1) =>
      (Crashed (TypeError "this.items.reduce is not a function"), w1)
  end.

End Cart.

(* ===================================================================== *)
(** ** The numbers of JavaScript, and the two sums of the cart in them *)
(* ===================================================================== *)

(** A number of JavaScript is a binary64 number of IEEE 754: 53 bits of
    precision, exponents up to 1024, results rounded to the nearest
    number, to the even one on a tie.  The operations are those of the
    Standard Library's specification of floating-point arithmetic. *)
Module Number.

Definition number : Type := spec_float.

Definition add : number -> number -> number := SFadd 53 1024.
Definition mul : number -> number -> number := SFmul 53 1024.

(** The literal [0]. *)
Definition zero : number := S754_zero false.

(** The number nearest to an integer, which is that integer when it
    has 53 bits or fewer. *)
Definition of_Z (z : Z) : number := binary_normalize 53 1024 z 0 false.




End Number.

(** [getTotal] and [getItemCount] as the code computes them: [reduce]
    from [0], with the [+] and the [*] of JavaScript.  A line is read
    here for its two numbers, [item.price] and [item.quantity]; from a
    line of the ledger above, they are the numbers of the integers it
    holds. *)
Module Double.

Record Line := { price : Number.number; quantity : Number.number }.

(** [this.items.reduce((total, item) => total + (item.price * item.quantity), 0)] *)
Definition total (l : list Line) : Number.number :=
  fold_left (fun total item => Number.add total (Number.mul (price item) (quantity item)))
    l Number.zero.

(** [this.items.reduce((total, item) => total + item.quantity, 0)] *)
Definition count (l : list Line) : Number.number :=
  fold_left (fun total item => Number.add total (quantity item)) l Number.zero.

Definition read (item : CartLine) : Line :=
  let 'Build_CartLine _ q := item in
  {| price := Number.of_Z (line_price item); quantity := Number.of_Z q |}.

Definition getTotal : M Number.number :=
  l ← get items;
  mret (total (map read l)).

Definition getItemCount : M Number.number :=
  l ← get items;
  mret (count (map read l)).

End Double.

(* ===================================================================== *)
(** ** [services/authService.js] *)
(* ===================================================================== *)

Module AuthService.

Definition refresh_url : string := API_BASE_URL +:+ "/auth/refresh".

(** [refreshToken()]: [true] when a new access token was stored. *)
Definition refreshToken : M bool :=
  try_catch
    (stored ← LocalStorage.getItem "refreshToken";
     if negb (truthy stored) then mret false
     else
       response ← fetch
         {| url := refresh_url; method := "POST"; authorization := None;
            body := Some (JSON.stringify
                            (JObj [("refreshToken",
                                    JStr (default EmptyString stored))])) |};
       data' ← response_json response;
       if success data' then
         match data data' with
         | Some d =>
             LocalStorage.setItem "accessToken"
               (string_or "undefined" (data_accessToken d));;
             mret true
         | None =>
             throw (TypeError
                      "Cannot read properties of undefined (reading 'accessToken')")
         end
       else mret false)
    (fun error =>
       Console.error "Error al renovar token:" (Some (error_message error));;
       mret false).

(** [apiRequest(endpoint, options)], where [options] gives the method
    and the body. *)
Definition apiRequest (endpoint : string) (method' : string)
  (body' : option string) : M Body :=
  token ← LocalStorage.getItem "accessToken";
  let config :=
    {| url := API_BASE_URL +:+ endpoint; method := method';
       authorization := bearer token; body := body' |} in
  try_catch
    (response ← fetch config;
     data' ← response_json response;
     if negb (ok response) then
       if (status response =? 401)%Z && truthy token then
         refreshed ← refreshToken;
         if (refreshed : bool) then
           renewed ← LocalStorage.getItem "accessToken";
           retryResponse ← fetch
             {| url := url config; method := method config;
                authorization := Some ("Bearer " +:+ string_or "null" renewed);
                body := body config |};
           retryData ← response_json retryResponse;
           mret retryData
         else throw (Error (or_else (message data') "Error en la petición"))
       else throw (Error (or_else (message data') "Error en la petición"))
     else mret data')
    (fun error =>
       Console.error "Error en API request:" (Some (error_message error));;
       throw error).

Definition logout : M unit :=
  try_finally
    (try_catch
       (apiRequest "/auth/logout" "POST" None;; mret tt)
       (fun error =>
          Console.error "Error al cerrar sesión en servidor:"
            (Some (error_message error))))
    (LocalStorage.removeItem "accessToken";;
     LocalStorage.removeItem "refreshToken";;
     LocalStorage.removeItem "currentUser").

(** [fetch] in its two moments: the request leaves when [fetch] is
    called, and the reply, or the rejection, is there when the [await]
    resumes. *)
Definition send (r : Request) : M unit := modify (add_request r).

Definition receive (r : Request) : M Response := fun w =>
  match server w r with
  | Rejected => (Throw FetchFailed, w)
  | Replied resp => (Return resp, w)
  end.

(** [apiRequest], from the moment the reply to its request is there:
    what is left of it once [fetch(url, config)] has been called with
    the [token] read before. *)
Definition apiRequest_resumed (token : option string) (config : Request)
  : M Body :=
  try_catch
    (response ← receive config;
     data' ← response_json response;
     if negb (ok response) then
       if (status response =? 401)%Z && truthy token then
         refreshed ← refreshToken;
         if (refreshed : bool) then
           renewed ← LocalStorage.getItem "accessToken";
           retryResponse ← fetch
             {| url := url config; method := method config;
                authorization := Some ("Bearer " +:+ string_or "null" renewed);
                body := body config |};
           retryData ← response_json retryResponse;
           mret retryData
         else throw (Error (or_else (message data') "Error en la petición"))
       else throw (Error (or_else (message data') "Error en la petición"))
     else mret data')
    (fun error =>
       Console.error "Error en API request:" (Some (error_message error));;
       throw error).

(** A call of [logout()] that is not awaited.  The call runs up to the
    first [await] that suspends it, the one of [fetch] in [apiRequest]:
    the token is read and the request leaves.  Its value is the rest of
    [logout], which runs when the reply is there. *)
Definition logout_started : M (M unit) :=
  token ← LocalStorage.getItem "accessToken";
  let config :=
    {| url := API_BASE_URL +:+ "/auth/logout"; method := "POST";
       authorization := bearer token; body := None |} in
  send config;;
  mret (try_finally
          (try_catch
             (apiRequest_resumed token config;; mret tt)
             (fun error =>
                Console.error "Error al cerrar sesión en servidor:"
                  (Some (error_message error))))
          (LocalStorage.removeItem "accessToken";;
           LocalStorage.removeItem "refreshToken";;
           LocalStorage.removeItem "currentUser")).

(** [getCurrentUser()].  Its value is the user it returns, [None] for
    [null], and the [logout()] that its handler has started and does not
    wait for, when it has started one: that logout is still running
    when [getCurrentUser] returns. *)
Definition getCurrentUser : M (option json * option (M unit)) :=
  try_catch
    (response ← apiRequest "/auth/me" "GET" None;
     if success response then
       match data response with
       | Some d =>
           LocalStorage.setItem "currentUser"
             (match data_user d with
              | Some u => JSON.stringify u
              | None => "undefined"
              end);;
           mret (data_user d, None)
       | None =>
           throw (TypeError "Cannot read properties of undefined (reading 'user')")
       end
     else mret (None, None))
    (fun error =>
       Console.error "Error al obtener usuario:" (Some (error_message error));;
       running ← logout_started;
       mret (None, Some running)).

Definition isAuthenticated : M bool :=
  token ← LocalStorage.getItem "accessToken";
  user ← LocalStorage.getItem "currentUser";
  mret (truthy token && truthy user).

(** What [register] and [login] return: [{ success: true, user }] or
    [{ success: false, message }]. *)
Inductive AuthResult :=
| Succeeded (user : option json)
| Failed (message : string).

(** [register(email, password, nombre_completo, telefono = null)] *)
Definition register (email password nombre_completo : string)
  (telefono : option string) : M AuthResult :=
  try_catch
    (response ← apiRequest "/auth/register" "POST"
       (Some (JSON.stringify
                (JObj [("email", JStr email); ("password", JStr password);
                       ("nombre_completo", JStr nombre_completo);
                       ("telefono", json_of_option JStr telefono)])));
     if success response then
       match data response with
       | Some d =>
           LocalStorage.setItem "accessToken"
             (string_or "undefined" (data_accessToken d));;
           LocalStorage.setItem "refreshToken"
             (string_or "undefined" (data_refreshToken d));;
           LocalStorage.setItem "currentUser"
             (match data_user d with
              | Some u => JSON.stringify u
              | None => "undefined"
              end);;
           mret (Succeeded (data_user d))
       | None =>
           throw (TypeError
                    "Cannot read properties of undefined (reading 'accessToken')")
       end
     else throw (Error (or_else (message response) "Error al registrar")))
    (fun error =>
       mret (Failed (or_else (Some (error_message error))
                       "Error al registrar usuario"))).

(** [login(email, password)] *)
Definition login (email password : string) : M AuthResult :=
  try_catch
    (response ← apiRequest "/auth/login" "POST"
       (Some (JSON.stringify
                (JObj [("email", JStr email); ("password", JStr password)])));
     if success response then
       match data response with
       | Some d =>
           LocalStorage.setItem "accessToken"
             (string_or "undefined" (data_accessToken d));;
           LocalStorage.setItem "refreshToken"
             (string_or "undefined" (data_refreshToken d));;
           LocalStorage.setItem "currentUser"
             (match data_user d with
              | Some u => JSON.stringify u
              | None => "undefined"
              end);;
           mret (Succeeded (data_user d))
       | None =>
           throw (TypeError
                    "Cannot read properties of undefined (reading 'accessToken')")
       end
     else throw (Error (or_else (message response) "Error al iniciar sesión")))
    (fun error =>
       mret (Failed (or_else (Some (error_message error))
                       "Error al iniciar sesión"))).

(** [getStoredUser()]: the stored user, [JNull] for [null]. *)
Definition getStoredUser : M json :=
  userStr ← LocalStorage.getItem "currentUser";
  if truthy userStr then
    try_catch
      (match JSON.parse (default EmptyString userStr) with
       | Some v => mret v
       | None => throw SyntaxError
       end)
      (fun _ => mret JNull)
  else mret JNull.

End AuthService.

(* ===================================================================== *)
(** ** Regular expressions, as [RegExp.prototype.test] runs them *)
(* ===================================================================== *)

(** The expressions of the page: classes of characters, sequence,
    repetition, lookahead and the end of the input.  The characters of a
    text are its code units; the texts of the model have code units
    below 256. *)
Module RegExp.

Inductive regex :=
| Class (p : ascii -> bool)   (* one character of a class *)
| Seq (r s : regex)           (* [rs] *)
| Star (r : regex)            (* [r*] *)
| Ahead (r : regex)           (* [(?=r)] *)
| Eol.                        (* [$], without the flag [m] *)

(** [r+] *)
Definition Plus (r : regex) : regex := Seq r (Star r).

(** [matches r s k]: [r] matches a prefix of [s] such that the rest of
    the expression, [k], matches what follows.  An iteration of a
    repetition that matches the empty text is not taken. *)
Fixpoint matches (r : regex) (s : string) (k : string -> bool) {struct r}
  : bool :=
  match r with
  | Class p =>
      match s with
      | String c s' => p c && k s'
      | EmptyString => false
      end
  | Seq r1 r2 => matches r1 s (fun s' => matches r2 s' k)
  | Star r' =>
      (fix loop (n : nat) (s : string) {struct n} : bool :=
         match n with
         | O => k s
         | S n' =>
             matches r' s
               (fun s' =>
                  (String.length s' <? String.length s)%nat && loop n' s')
             || k s
         end) (String.length s) s
  | Ahead r' => matches r' s (fun _ => true) && k s
  | Eol => match s with EmptyString => k s | String _ _ => false end
  end.

(** The match is tried at every position of the text, from the left. *)
Fixpoint search (r : regex) (s : string) : bool :=
  matches r s (fun _ => true)
  || match s with
     | String _ s' => search r s'
     | EmptyString => false
     end.

(** A literal: [anchored] when it starts with [^]. *)
Record literal := { anchored : bool; body : regex }.

Definition test (l : literal) (s : string) : bool :=
  if anchored l then matches (body l) s (fun _ => true)
  else search (body l) s.

(** The classes. *)
Definition code (c : ascii) : N := N_of_ascii c.

(** [\s] *)
Definition space (c : ascii) : bool :=
  let n := code c in
  ((n =? 9) || (n =? 10) || (n =? 11) || (n =? 12) || (n =? 13) || (n =? 32)
   || (n =? 160))%N.

(** [.]: any character but a line terminator. *)
Definition dot (c : ascii) : bool :=
  let n := code c in negb ((n =? 10) || (n =? 13))%N.

(** [\d], [[a-z]] and [[A-Z]] *)
Definition digit (c : ascii) : bool :=
  let n := code c in ((48 <=? n) && (n <=? 57))%N.
Definition lower (c : ascii) : bool :=
  let n := code c in ((97 <=? n) && (n <=? 122))%N.
Definition upper (c : ascii) : bool :=
  let n := code c in ((65 <=? n) && (n <=? 90))%N.

(** One given character. *)
Definition char (a : ascii) (c : ascii) : bool := Ascii.eqb c a.

End RegExp.

(* ===================================================================== *)
(** ** [main.js]: the forms of the session *)
(* ===================================================================== *)

(** [[^\s@]] *)
Definition no_space_no_at (c : ascii) : bool :=
  negb (RegExp.space c || RegExp.char "@" c).

(** [/^[^\s@]+@[^\s@]+\.[^\s@]+$/] *)
Definition emailRegex : RegExp.literal :=
  {| RegExp.anchored := true;
     RegExp.body :=
       RegExp.Seq (RegExp.Plus (RegExp.Class no_space_no_at))
         (RegExp.Seq (RegExp.Class (RegExp.char "@"))
            (RegExp.Seq (RegExp.Plus (RegExp.Class no_space_no_at))
               (RegExp.Seq (RegExp.Class (RegExp.char "."))
                  (RegExp.Seq (RegExp.Plus (RegExp.Class no_space_no_at))
                     RegExp.Eol)))) |}.

Definition isValidEmail (email : string) : bool := RegExp.test emailRegex email.

(** [/(?=.*[a-z])(?=.*[A-Z])(?=.*\d)/] *)
Definition passwordRegex : RegExp.literal :=
  let ahead (p : ascii -> bool) :=
    RegExp.Ahead (RegExp.Seq (RegExp.Star (RegExp.Class RegExp.dot))
                    (RegExp.Class p)) in
  {| RegExp.anchored := false;
     RegExp.body :=
       RegExp.Seq (ahead RegExp.lower)
         (RegExp.Seq (ahead RegExp.upper) (ahead RegExp.digit)) |}.

(** The checks of [handleLogin] on the fields of the form, before it
    calls the service: the message it shows and stops with, or [None]
    when it goes on to [login]. *)
Definition handleLogin_checks (email password : string) : option string :=
  if negb (truthy_string email) || negb (truthy_string password) then
    Some "Por favor, completa todos los campos"
  else if negb (isValidEmail email) then
    Some "Por favor, ingresa un email válido"
  else None.

(** The checks of [handleRegister] on the fields of the form, before it
    calls the service: the message it shows and stops with, or [None]
    when it goes on to [register].  [confirmPassword] is [None] when the
    form has no such field. *)
Definition handleRegister_checks (nombre_completo email password : string)
  (confirmPassword : option string) : option string :=
  if negb (truthy_string nombre_completo) || negb (truthy_string email)
     || negb (truthy_string password) then
    Some "Por favor, completa todos los campos obligatorios"
  else if negb (isValidEmail email) then
    Some "Por favor, ingresa un email válido"
  else if (String.length password <? 8)%nat then
    Some "La contraseña debe tener al menos 8 caracteres"
  else if negb (RegExp.test passwordRegex password) then
    Some "La contraseña debe contener al menos una mayúscula, una minúscula y un número"
  else if truthy confirmPassword
          && negb (String.eqb password (default EmptyString confirmPassword))
  then Some "Las contraseñas no coinciden"
  else None.

(* ===================================================================== *)
(** ** [main.js]: the carousel of featured pieces *)
(* ===================================================================== *)

(** One run of [setupPiezasDestacadasCarousel] installs a carousel: a
    counter [currentSlide] of its own, dots of its own, which replace
    those on the page, and a timer and listeners of its own.  The page
    runs it twice, from [main] and from a timeout, so that two
    installations move the one strip of slides.  [%] is the remainder of
    JavaScript, which has the sign of the dividend. *)
Module Carousel.

Definition nextSlide (totalSlides currentSlide : Z) : Z :=
  Z.rem (currentSlide + 1) totalSlides.

Definition prevSlide (totalSlides currentSlide : Z) : Z :=
  Z.rem (currentSlide - 1 + totalSlides) totalSlides.

Definition goToSlide (slideIndex currentSlide : Z) : Z := slideIndex.

(** What moves the carousel: the timer and the right arrow, the left
    arrow, and a click on the dot of a slide. *)
Inductive Event :=
| Next
| Prev
| Dot (i : Z).

Definition handle (totalSlides : Z) (currentSlide : Z) (e : Event) : Z :=
  match e with
  | Next => nextSlide totalSlides currentSlide
  | Prev => prevSlide totalSlides currentSlide
  | Dot i => goToSlide i currentSlide
  end.

(** The dots that [updateCarousel] marks as active, among the dots of
    its installation. *)
Definition active_dots (totalSlides currentSlide : Z) : list Z :=
  List.filter (fun index => index =? currentSlide)
    (map Z.of_nat (seq 0 (Z.to_nat totalSlides))).

(** The page: the counter of each installation, the oldest first, and
    the slide that the strip is moved to, which the last
    [updateCarousel] that ran has set.  The dots on the page are those
    of the last installation. *)
Record Page := { installed : list Z; shown : Z }.

(** One more run of [setupPiezasDestacadasCarousel]: its counter starts
    at 0 and its [updateCarousel] runs. *)
Definition install (p : Page) : Page :=
  {| installed := installed p ++ [0]; shown := 0 |}.

(** The installation [k] handles an event: its counter moves and its
    [updateCarousel] runs. *)
Definition step (totalSlides : Z) (p : Page) (ke : nat * Event) : Page :=
  match installed p !! fst ke with
  | Some currentSlide =>
      let moved := handle totalSlides currentSlide (snd ke) in
      {| installed := <[fst ke := moved]> (installed p); shown := moved |}
  | None => p
  end.

(** The dot marked on the page: that of the last installation. *)
Definition marked (p : Page) : option Z := last (installed p).

(** The page once it has loaded: two installations. *)
Definition loaded : Page :=
  install (install {| installed := []; shown := 0 |}).

End Carousel.

(* ===================================================================== *)
(** ** Vocabulary of the statements *)
(* ===================================================================== *)

(** The world a computation leaves, and what it returns. *)
Definition run {A} (m : M A) (w : World) : World := snd (m w).
Definition outcome {A} (m : M A) (w : World) : Result A := fst (m w).

(** A sum over the lines of a cart, as mathematics writes it. *)
Fixpoint sum_over (f : CartLine -> Z) (l : list CartLine) : Z :=
  match l with
  | [] => 0
  | item :: l' => f item + sum_over f l'
  end.

(** The calls made on a cart. *)
Inductive CartOp :=
| AddItem (productId : string) (quantity : Z)
| RemoveItem (productId : string)
| UpdateQuantity (productId : string) (quantity : Z).

Definition run_op (op : CartOp) : M unit :=
  match op with
  | AddItem productId q => Cart.addItem productId q
  | RemoveItem productId => Cart.removeItem productId
  | UpdateQuantity productId q => Cart.updateQuantity productId q
  end.

Fixpoint run_ops (ops : list CartOp) (w : World) : World :=
  match ops with
  | [] => w
  | op :: ops' => run_ops ops' (run (run_op op) w)
  end.

(** The first step of [addItem]: the cache, then [getProductById]. *)
Definition resolve (productId : string) : M (option Product) :=
  cache ← get PRODUCTS;
  match find_product productId cache with
  | Some p => mret (Some p)
  | None => getProductById productId
  end.

(** The request the product service sends for a product. *)
Definition product_request (w : World) (productId : string) : Request :=
  {| url := API_BASE_URL +:+ "/products/" +:+ productId; method := "GET";
     authorization := bearer (localStorage w !! "accessToken"); body := None |}.

(** The product the remote catalog gives for an id: the service is
    loaded, the reply arrives with an ok status and a JSON body whose
    [success] is set and whose [data.product] is there. *)
Definition remote_product (w : World) (productId : string) : option Api.product :=
  if productService w then
    match server w (product_request w productId) with
    | Replied r =>
        if ok r then
          match json_body r with
          | Some b =>
              if success b then
                match data b with
                | Some d => data_product d
                | None => None
                end
              else None
          | None => None
          end
        else None
    | Rejected => None
    end
  else None.

(** The product an id resolves to. *)
Definition resolution (w : World) (productId : string) : option Product :=
  match find_product productId (PRODUCTS w) with
  | Some p => Some p
  | None =>
      option_map ProductService.formatProductForFrontend
        (remote_product w productId)
  end.

(** The ways the remote lookup of a product fails. *)
Inductive LookupFails (w : World) (productId : string) : Prop :=
| service_missing :
    productService w = false -> LookupFails w productId
| network_down :
    server w (product_request w productId) = Rejected ->
    LookupFails w productId
| http_error r :
    server w (product_request w productId) = Replied r -> ok r = false ->
    LookupFails w productId
| body_unreadable r :
    server w (product_request w productId) = Replied r ->
    json_body r = None ->
    LookupFails w productId
| not_success r b :
    server w (product_request w productId) = Replied r ->
    json_body r = Some b -> success b = false ->
    LookupFails w productId
| product_missing r b :
    server w (product_request w productId) = Replied r ->
    json_body r = Some b ->
    match data b with Some d => data_product d | None => None end = None ->
    LookupFails w productId.

(** Two worlds that differ at most by what was sent and what was
    written on the console. *)
Definition same_but_logs (w w' : World) : Prop :=
  localStorage w' = localStorage w /\ PRODUCTS w' = PRODUCTS w /\
  productService w' = productService w /\ server w' = server w /\
  cart_modal w' = cart_modal w /\ items w' = items w /\
  screen w' = screen w.

(** What [updateCartUI] shows for a list of lines. *)
Definition projection_of (has_modal : bool) (l : list CartLine) : Projection :=
  {| data_count := sum_over quantity l;
     modal :=
       if has_modal then
         Some match l with
              | [] => EmptyView
              | _ =>
                  CartView (map view_of_line l)
                    (sum_over (fun item => line_price item * quantity item) l)
              end
       else None |}.

(** The world after a mutation that leaves the lines [l]: the lines are
    set, stored under [cart], and shown once. *)
Definition commit (l : list CartLine) (w : World) : World :=
  add_screen (projection_of (cart_modal w) l)
    (set_localStorage (insert "cart" (JSON.stringify (json_of_items l)))
       (set_items l w)).

(** The lines after [addItem] of a resolved product. *)
Definition upsert (productId : string) (q : Z) (p : Product)
  (l : list CartLine) : list CartLine :=
  match find_item productId l with
  | Some _ => update_item productId (add_quantity q) l
  | None => l ++ [{| snapshot := p; quantity := q |}]
  end.

(** The lines without those of an id. *)
Definition without (productId : string) (l : list CartLine) : list CartLine :=
  List.filter (fun item => negb (String.eqb (line_id item) productId)) l.

(** An operation has persisted the lines and shown them exactly once:
    the [cart] key holds the text of the lines the operation leaves, and
    the screen got one more projection, that of those lines. *)
Definition persisted_and_shown_once (m : M unit) (w : World) : Prop :=
  localStorage (run m w) !! "cart"
    = Some (JSON.stringify (json_of_items (items (run m w)))) /\
  screen (run m w)
    = screen w ++ [projection_of (cart_modal w) (items (run m w))].

(** *** The requests of the authenticated client *)

(** The request [apiRequest] sends first. *)
Definition original_request (w : World) (endpoint method' : string)
  (body' : option string) : Request :=
  {| url := API_BASE_URL +:+ endpoint; method := method';
     authorization := bearer (localStorage w !! "accessToken");
     body := body' |}.

(** The request [refreshToken] sends. *)
Definition refresh_request (w : World) : Request :=
  {| url := AuthService.refresh_url; method := "POST"; authorization := None;
     body := Some (JSON.stringify
                     (JObj [("refreshToken",
                             JStr (default EmptyString
                                     (localStorage w !! "refreshToken")))])) |}.

(** The access token that the refresh stores, when it succeeds: the
    reply has a JSON body whose [success] is set and that has a [data]
    member. *)
Definition refresh_grant (w : World) : option string :=
  match server w (refresh_request w) with
  | Replied r =>
      match json_body r with
      | Some b =>
          if success b then
            match data b with
            | Some d => Some (string_or "undefined" (data_accessToken d))
            | None => None
            end
          else None
      | None => None
      end
  | Rejected => None
  end.

(** The original request again, with the renewed token. *)
Definition retry_request (r : Request) (token : string) : Request :=
  {| url := url r; method := method r;
     authorization := Some ("Bearer " +:+ token); body := body r |}.

(** What [apiRequest] returns from the retry. *)
Definition retry_result (w : World) (r : Request) : Result Body :=
  match server w r with
  | Rejected => Throw FetchFailed
  | Replied resp =>
      match json_body resp with
      | Some b => Return b
      | None => Throw SyntaxError
      end
  end.

Definition not_found_warning (x : string) : LogEntry :=
  {| level := Warn; text := "Producto no encontrado:"; detail := Some x |}.

(** The lines of a cart that carry a given id. *)
Definition lines_of (x : string) (l : list CartLine) : list CartLine :=
  List.filter (fun item => String.eqb (line_id item) x) l.




(** *** Further vocabulary *)


(** What [register] and [login] do with the reply to their request, as
    one function of the endpoint, the body and the two default
    messages. *)
Definition sign_in (endpoint body' refused failed : string)
  : M AuthService.AuthResult :=
  try_catch
    (response ← AuthService.apiRequest endpoint "POST" (Some body');
     if success response then
       match data response with
       | Some d =>
           LocalStorage.setItem "accessToken"
             (string_or "undefined" (data_accessToken d));;
           LocalStorage.setItem "refreshToken"
             (string_or "undefined" (data_refreshToken d));;
           LocalStorage.setItem "currentUser"
             (match data_user d with
              | Some u => JSON.stringify u
              | None => "undefined"
              end);;
           mret (AuthService.Succeeded (data_user d))
       | None =>
           throw (TypeError
                    "Cannot read properties of undefined (reading 'accessToken')")
       end
     else throw (Error (or_else (message response) refused)))
    (fun error =>
       mret (AuthService.Failed (or_else (Some (error_message error)) failed))).

Definition login_body (email password : string) : string :=
  JSON.stringify (JObj [("email", JStr email); ("password", JStr password)]).

Definition register_body (email password nombre_completo : string)
  (telefono : option string) : string :=
  JSON.stringify
    (JObj [("email", JStr email); ("password", JStr password);
           ("nombre_completo", JStr nombre_completo);
           ("telefono", json_of_option JStr telefono)]).

(** The session a reply grants: the three texts that are stored. *)
Definition granted_session (d : Data) (ls : gmap string string)
  : gmap string string :=
  <["currentUser" := match data_user d with
                     | Some u => JSON.stringify u
                     | None => "undefined"
                     end]>
    (<["refreshToken" := string_or "undefined" (data_refreshToken d)]>
       (<["accessToken" := string_or "undefined" (data_accessToken d)]> ls)).

(** What [apiRequest] gives for a request that carried no token, from
    the reply to that request alone. *)
Definition plain_reply (w : World) (request : Request) : Result Body :=
  match server w request with
  | Rejected => Throw FetchFailed
  | Replied r =>
      match json_body r with
      | None => Throw SyntaxError
      | Some b =>
          if ok r then Return b
          else Throw (Error (or_else (message b) "Error en la petición"))
      end
  end.

(** What a call [m] of [login] or [register] leaves, made with the body
    [body'] on [endpoint]; [reply] is what [apiRequest] gives it.  Either
    the reply has [success] and [data], and the session of that [data]
    is stored and reads back, or [m] reports a failure with a message and
    leaves the storage as it was, but for a renewed access token. *)
Definition stores_session_or_nothing (m : M AuthService.AuthResult)
  (endpoint body' : string) (w : World) : Prop :=
  let first := original_request w endpoint "POST" (Some body') in
  let reply := outcome (AuthService.apiRequest endpoint "POST" (Some body')) w in
  let w' := run m w in
  (exists rest, requests w' = requests w ++ first :: rest) /\
  (truthy (localStorage w !! "accessToken") = false ->
   reply = plain_reply w first) /\
  exists result,
    outcome m w = Return result /\
    match result with
    | AuthService.Succeeded u =>
        exists b d,
          reply = Return b /\ success b = true /\ data b = Some d /\
          u = data_user d /\
          localStorage w' = granted_session d (localStorage w) /\
          localStorage w' !! "accessToken"
          = Some (string_or "undefined" (data_accessToken d)) /\
          localStorage w' !! "refreshToken"
          = Some (string_or "undefined" (data_refreshToken d)) /\
          localStorage w' !! "currentUser"
          = Some (match data_user d with
                  | Some user => JSON.stringify user
                  | None => "undefined"
                  end) /\
          AuthService.getStoredUser w' = (Return (default JNull u), w') /\
          outcome AuthService.isAuthenticated w'
          = Return (truthy_string (string_or "undefined" (data_accessToken d)))
    | AuthService.Failed msg =>
        (forall b d, reply = Return b -> success b = true ->
                     data b = Some d -> False) /\
        truthy_string msg = true /\
        (forall key, key <> "accessToken" ->
                     localStorage w' !! key = localStorage w !! key) /\
        (truthy (localStorage w !! "accessToken") = false ->
         localStorage w' = localStorage w)
    end.

(** A text that no JSON value begins: after the white space it is at its
    end, or at a character that is none of the brace, the bracket, the
    quote, the minus sign, a digit and the first letters of [true],
    [false] and [null]. *)
Definition begins_no_value (s : string) : bool :=
  match JSON.skip_ws s with
  | EmptyString => true
  | String c _ =>
      negb (JSON.is_digit c || Ascii.eqb c "-" || Ascii.eqb c JSON.dquote
            || Ascii.eqb c "[" || Ascii.eqb c "{" || Ascii.eqb c "t"
            || Ascii.eqb c "f" || Ascii.eqb c "n")
  end.

(** *** Integers that the numbers of JavaScript hold exactly *)




(** *** The quantities of a cart *)



(** *** Texts *)

(** Every character of a text is of a class; some character is. *)
Fixpoint all_chars (p : ascii -> bool) (s : string) : bool :=
  match s with
  | String c s' => p c && all_chars p s'
  | EmptyString => true
  end.

Fixpoint some_char (p : ascii -> bool) (s : string) : bool :=
  match s with
  | String c s' => p c || some_char p s'
  | EmptyString => false
  end.

(** How often a character occurs in a text. *)
Fixpoint occurrences (a : ascii) (s : string) : nat :=
  match s with
  | String c s' => ((if Ascii.eqb c a then 1 else 0) + occurrences a s')%nat
  | EmptyString => O
  end.

(** A text of one or more characters that are neither spaces nor [@]. *)
Definition email_part (s : string) : Prop :=
  s <> EmptyString /\ all_chars no_space_no_at s = true.

(** The slides a carousel of [totalSlides] slides has. *)
Definition slide_of (totalSlides i : Z) : Prop := 0 <= i < totalSlides.

(** The events of a carousel: a dot is the dot of one of its slides. *)
Definition event_of (totalSlides : Z) (e : Carousel.Event) : Prop :=
  match e with
  | Carousel.Dot i => slide_of totalSlides i
  | _ => True
  end.

(** *** A small shop, for the examples *)

Module Example.

Definition product (i : string) (p : Z) : Product :=
  {| id := i; name := "Pulsera " +:+ i; category := Some "pulseras";
     price := p; precio_anterior := None; material := Some "plata";
     color := None; featured := false; image := "assets/Pulseras/1.jpg";
     imagenes := [{| ruta := "assets/Pulseras/1.jpg"; es_principal := true |}];
     stock := Some 4; descripcion_corta := None; descripcion_larga := None;
     slug := Some i |}.

Definition api_product (i : string) (p : Z) : Api.product :=
  {| Api.id := i; Api.nombre := "Anillo " +:+ i;
     Api.categoria_slug := None; Api.categoria_nombre := Some "Anillos";
     Api.precio := p; Api.precio_anterior := Some (p + 10);
     Api.material := Some "plata"; Api.color := None;
     Api.destacado := true; Api.image := None; Api.imagenes := None;
     Api.stock := Some 2; Api.descripcion_corta := None;
     Api.descripcion_larga := None; Api.slug := Some i |}.

Definition reply (b : Body) : Reply :=
  Replied {| ok := true; status := 200; statusText := "OK";
             json_body := Some b |}.

Definition unauthorized : Reply :=
  Replied {| ok := false; status := 401; statusText := "Unauthorized";
             json_body := Some {| success := false;
                                  message := Some "Token expirado";
                                  data := None |} |}.

Definition not_found : Reply :=
  Replied {| ok := false; status := 404; statusText := "Not Found";
             json_body := Some {| success := false;
                                  message := Some "Producto no encontrado";
                                  data := None |} |}.

(** A backend that knows the product [sku-1], at 120, and no other. *)
Definition catalog (r : Request) : Reply :=
  if String.eqb (url r) (API_BASE_URL +:+ "/products/sku-1") then
    reply {| success := true; message := None;
             data := Some (ProductData (Some (api_product "sku-1" 120))) |}
  else not_found.

(** A page with the cart modal, an empty cart, nothing stored, the
    products [A] (100) and [B] (50) in the cache and [catalog] behind. *)
Definition shop : World :=
  {| localStorage := ∅;
     PRODUCTS := [product "A" 100; product "B" 50];
     productService := true; server := catalog; cart_modal := true;
     items := []; requests := []; console := []; screen := [] |}.

(** A backend whose access token [old] has expired.  With [renews] it
    gives the token [new] for the refresh token [r1]; it serves
    [/auth/me] to the bearer of [new] only. *)
Definition user : json := JObj [("email", JStr "ana@example.com")].

Definition auth_backend (renews : bool) (r : Request) : Reply :=
  if String.eqb (url r) AuthService.refresh_url then
    if renews then
      reply {| success := true; message := None;
               data := Some (SessionData (Some "new") None None) |}
    else
      Replied {| ok := false; status := 401; statusText := "Unauthorized";
                 json_body := Some {| success := false;
                                      message := Some "Refresh token inválido";
                                      data := None |} |}
  else if String.eqb (url r) (API_BASE_URL +:+ "/auth/me") then
    match authorization r with
    | Some "Bearer new" =>
        reply {| success := true; message := None;
                 data := Some (SessionData None None (Some user)) |}
    | _ => unauthorized
    end
  else unauthorized.

Definition session (renews : bool) : World :=
  {| localStorage :=
       <["accessToken" := "old"]>
         (<["refreshToken" := "r1"]>
            (<["currentUser" := JSON.stringify user]> ∅));
     PRODUCTS := []; productService := true;
     server := auth_backend renews; cart_modal := false;
     items := []; requests := []; console := []; screen := [] |}.



(** The same session behind a proxy that answers every request by 401
    with a page that is not JSON. *)
Definition session_behind_a_proxy : World :=
  {| localStorage :=
       <["accessToken" := "old"]>
         (<["refreshToken" := "r1"]>
            (<["currentUser" := JSON.stringify user]> ∅));
     PRODUCTS := []; productService := true;
     server := fun _ =>
       Replied {| ok := false; status := 401; statusText := "Unauthorized";
                  json_body := None |};
     cart_modal := false;
     items := []; requests := []; console := []; screen := [] |}.

(** The shop, with the text [null] stored under [cart]. *)
Definition shop_with_null_cart : World :=
  set_localStorage (insert "cart" "null") shop.

(** The shop, with a cut-off text stored under [cart]. *)
Definition shop_with_broken_cart : World :=
  set_localStorage (insert "cart" "[{") shop.

(** A backend that lets [ana@example.com] in with the password
    [Secreto1], and nobody else. *)
Definition login_backend (r : Request) : Reply :=
  if String.eqb (url r) (API_BASE_URL +:+ "/auth/login") then
    if String.eqb (default EmptyString (body r))
         (login_body "ana@example.com" "Secreto1")
    then
      reply {| success := true; message := None;
               data := Some (SessionData (Some "t1") (Some "r1") (Some user)) |}
    else
      Replied {| ok := false; status := 401; statusText := "Unauthorized";
                 json_body := Some {| success := false;
                                      message := Some "Credenciales inválidas";
                                      data := None |} |}
  else unauthorized.

(** A visitor who is not logged in. *)
Definition visitor : World :=
  {| localStorage := <["cart" := "[]"]> ∅;
     PRODUCTS := []; productService := true;
     server := login_backend; cart_modal := false;
     items := []; requests := []; console := []; screen := [] |}.



End Example.

(* ===================================================================== *)
(** ** Facts about the JSON codec *)
(* ===================================================================== *)

Section json_codec.

Lemma print_arr_cons v vs k :
  print (JArr (v :: vs)) k = String "[" (print v (print_elems vs k)).
Proof.
  simpl. do 2 f_equal.
  induction vs as [|x vs IH]; simpl; [reflexivity|]. now rewrite IH.
Qed.

Lemma print_obj_cons key v ms k :
  print (JObj ((key, v) :: ms)) k =
  String "{" (quote key (String ":" (print v (print_members ms k)))).
Proof.
  simpl. do 4 f_equal.
  induction ms as [|[key' x] ms IH]; simpl; [reflexivity|]. now rewrite IH.
Qed.

Lemma parse_string_body_escape_char c r :
  parse_string_body (escape_char c r) = cons_fst c (parse_string_body r).
Proof.
  destruct c as [[] [] [] [] [] [] [] []]; reflexivity.
Qed.

Lemma parse_string_body_escape s k :
  parse_string_body (escape s (String dquote k)) = Some (s, k).
Proof.
  induction s as [|c s IH]; simpl; [reflexivity|].
  now rewrite parse_string_body_escape_char, IH.
Qed.

Lemma span_digits_uint d k :
  no_digit_head k ->
  span_digits (NilEmpty.string_of_uint d +:+ k) = (NilEmpty.string_of_uint d, k).
Proof.
  intros Hk.
  induction d; simpl; try (rewrite IHd; reflexivity).
  destruct k as [|c k]; simpl in *; [reflexivity|]. now rewrite Hk.
Qed.

Lemma unorm_fixed_head d :
  Decimal.unorm d = d ->
  d = Decimal.D0 Decimal.Nil \/ (d <> Decimal.Nil /\ forall d', d <> Decimal.D0 d').
Proof.
  intros H. unfold Decimal.unorm in H.
  pose proof (nzhead_nonzero d) as Hnz.
  destruct (Decimal.nzhead d) eqn:E; try (right; subst d; split; [discriminate|exact Hnz]).
  left. now symmetry.
Qed.

Lemma unorm_to_uint p : Decimal.unorm (Pos.to_uint p) = Pos.to_uint p.
Proof.
  rewrite <- (DecimalPos.Unsigned.to_of (Pos.to_uint p)).
  now rewrite DecimalPos.Unsigned.of_to.
Qed.

Lemma parse_digits_uint d k :
  Decimal.unorm d = d -> no_digit_head k ->
  parse_digits (NilEmpty.string_of_uint d +:+ k) = Some (d, k).
Proof.
  intros Hd Hk. unfold parse_digits.
  rewrite (span_digits_uint d k Hk).
  destruct (unorm_fixed_head d Hd) as [->|[Hnil Hz]]; [reflexivity|].
  assert (leading_zero (NilEmpty.string_of_uint d) = false) as ->.
  { destruct d; try reflexivity. now destruct (Hz d). }
  rewrite NilEmpty.usu.
  destruct d; try reflexivity. now destruct Hnil.
Qed.

Lemma is_digit_not_minus c : is_digit c = true -> Ascii.eqb c "-" = false.
Proof.
  intros H. destruct (Ascii.eqb_spec c "-") as [->|]; [discriminate H|reflexivity].
Qed.

Lemma uint_string_head d :
  d <> Decimal.Nil ->
  exists c r, NilEmpty.string_of_uint d = String c r /\ is_digit c = true.
Proof.
  intros Hd. destruct d; try (now destruct Hd); simpl; eauto.
Qed.

Lemma to_uint_nonnil p : Pos.to_uint p <> Decimal.Nil.
Proof.
  rewrite <- unorm_to_uint. apply unorm_nonnil.
Qed.

Lemma parse_number_print z k :
  no_digit_head k -> parse_number (print_number z k) = Some (z, k).
Proof.
  intros Hk. unfold print_number.
  destruct z as [|p|p]; cbn [Z.to_int NilZero.string_of_int].
  - change (parse_number (String "0" k) = Some (0, k)).
    cbn [parse_number Ascii.eqb Bool.eqb].
    change (String "0" k)
      with (NilEmpty.string_of_uint (Decimal.D0 Decimal.Nil) +:+ k).
    now rewrite parse_digits_uint.
  - pose proof (to_uint_nonnil p) as Hn.
    assert (NilZero.string_of_uint (Pos.to_uint p) =
            NilEmpty.string_of_uint (Pos.to_uint p)) as ->
      by (destruct (Pos.to_uint p); reflexivity || now destruct Hn).
    destruct (uint_string_head _ Hn) as (c & r & E & Hc).
    unfold parse_number. rewrite E.
    change (String c r +:+ k) with (String c (r +:+ k)). cbv beta iota.
    rewrite (is_digit_not_minus c Hc).
    change (String c (r +:+ k)) with (String c r +:+ k). rewrite <- E.
    rewrite parse_digits_uint by (apply unorm_to_uint || assumption).
    now rewrite <- (DecimalZ.of_to (Z.pos p)).
  - pose proof (to_uint_nonnil p) as Hn.
    assert (NilZero.string_of_uint (Pos.to_uint p) =
            NilEmpty.string_of_uint (Pos.to_uint p)) as ->
      by (destruct (Pos.to_uint p); reflexivity || now destruct Hn).
    change (String "-" ?x +:+ k) with (String "-" (x +:+ k)).
    cbn [parse_number Ascii.eqb Bool.eqb].
    rewrite parse_digits_uint by (apply unorm_to_uint || assumption).
    now rewrite <- (DecimalZ.of_to (Z.neg p)).
Qed.

Lemma need_arr_cons v vs :
  need (JArr (v :: vs)) = S (need v + need_elems vs).
Proof. reflexivity. Qed.

Lemma need_obj_cons key v ms :
  need (JObj ((key, v) :: ms)) = S (S (need v) + need_members ms).
Proof. reflexivity. Qed.

Lemma digit_or_minus_head c :
  is_digit c || Ascii.eqb c "-" = true -> value_head c.
Proof.
  intros H. destruct c as [[] [] [] [] [] [] [] []];
    cbv in H; try discriminate H; repeat split.
Qed.

Lemma number_head z k :
  exists c r, print_number z k = String c r /\
              is_digit c || Ascii.eqb c "-" = true.
Proof.
  unfold print_number.
  destruct z as [|p|p]; cbn [Z.to_int NilZero.string_of_int].
  - exists "0"%char, k. split; reflexivity.
  - pose proof (to_uint_nonnil p) as Hn.
    destruct (uint_string_head _ Hn) as (c & r & E & Hc).
    exists c, (r +:+ k). split; [|now rewrite Hc].
    unfold NilZero.string_of_uint.
    destruct (Pos.to_uint p); try (now destruct Hn); now rewrite E.
  - eexists "-"%char, _. split; reflexivity.
Qed.

Lemma print_head v k : exists c r, print v k = String c r /\ value_head c.
Proof.
  destruct v as [|[]|z|s|[|v vs]|[|[key v] ms]];
    try (eexists _, _; split; [reflexivity|repeat split]).
  destruct (number_head z k) as (c & r & E & H).
  exists c, r. split; [exact E|]. now apply digit_or_minus_head.
Qed.

Lemma skip_ws_solid c s : is_ws c = false -> skip_ws (String c s) = String c s.
Proof. intros H. simpl. now rewrite H. Qed.

Lemma skip_ws_print v k : skip_ws (print v k) = print v k.
Proof.
  destruct (print_head v k) as (c & r & E & Hws & _).
  rewrite E. simpl. now rewrite Hws.
Qed.

Lemma no_digit_head_elems vs k : no_digit_head (print_elems vs k).
Proof. destruct vs; reflexivity. Qed.

Lemma no_digit_head_members ms k : no_digit_head (print_members ms k).
Proof. destruct ms as [|[]]; reflexivity. Qed.

Lemma parse_elems_print vs :
  Forall (fun v => forall k fuel, no_digit_head k -> (need v <= fuel)%nat ->
                     parse_value fuel (print v k) = Some (v, k)) vs ->
  forall k fuel, (need_elems vs <= fuel)%nat ->
    parse_elems fuel (print_elems vs k) = Some (vs, k).
Proof.
  induction 1 as [|v vs Hv _ IH]; intros k fuel Hfuel.
  - destruct fuel; [simpl in Hfuel; lia|reflexivity].
  - destruct fuel as [|n]; [simpl in Hfuel; lia|].
    simpl in Hfuel.
    cbn [print_elems parse_elems].
    rewrite (skip_ws_solid ","%char) by reflexivity. cbv beta iota.
    rewrite skip_ws_print.
    rewrite Hv by (apply no_digit_head_elems || lia).
    rewrite IH by lia. reflexivity.
Qed.

Lemma parse_member_print key v k fuel :
  (forall k fuel, no_digit_head k -> (need v <= fuel)%nat ->
                  parse_value fuel (print v k) = Some (v, k)) ->
  no_digit_head k -> (S (need v) <= fuel)%nat ->
  parse_member fuel (quote key (String ":" (print v k))) = Some ((key, v), k).
Proof.
  intros Hv Hk Hfuel. destruct fuel as [|n]; [lia|].
  unfold quote. cbn [parse_member].
  change (Ascii.eqb dquote dquote) with true. cbv beta iota.
  rewrite parse_string_body_escape.
  rewrite (skip_ws_solid ":"%char) by reflexivity. cbv beta iota.
  rewrite skip_ws_print, Hv by (assumption || lia). reflexivity.
Qed.

Lemma parse_members_print ms :
  Forall (fun m => forall k fuel, no_digit_head k -> (need (snd m) <= fuel)%nat ->
                     parse_value fuel (print (snd m) k) = Some (snd m, k)) ms ->
  forall k fuel, (need_members ms <= fuel)%nat ->
    parse_members fuel (print_members ms k) = Some (ms, k).
Proof.
  induction 1 as [|[key v] ms Hv _ IH]; intros k fuel Hfuel.
  - destruct fuel; [simpl in Hfuel; lia|reflexivity].
  - destruct fuel as [|n]; [simpl in Hfuel; lia|].
    simpl in Hfuel, Hv.
    cbn [print_members parse_members].
    rewrite (skip_ws_solid ","%char) by reflexivity. cbv beta iota.
    unfold quote at 1. rewrite (skip_ws_solid dquote) by reflexivity.
    fold (quote key (String ":" (print v (print_members ms k)))).
    rewrite parse_member_print
      by (assumption || apply no_digit_head_members || lia).
    rewrite IH by lia. reflexivity.
Qed.

(** Reading back the text of a value gives the value and the rest of
    the text. *)
Lemma parse_value_print v :
  forall k fuel, no_digit_head k -> (need v <= fuel)%nat ->
    parse_value fuel (print v k) = Some (v, k).
Proof.
  induction v as [|b|z|s|vs IH|ms IH] using json_induction;
    intros k fuel Hk Hfuel.
  - destruct fuel; [simpl in Hfuel; lia|reflexivity].
  - destruct fuel; [simpl in Hfuel; lia|]. destruct b; reflexivity.
  - destruct fuel; [simpl in Hfuel; lia|].
    destruct (number_head z k) as (c & r & E & H).
    cbn [print parse_value]. rewrite E, H, <- E.
    now rewrite parse_number_print.
  - destruct fuel; [simpl in Hfuel; lia|].
    cbn [print parse_value quote].
    change (is_digit dquote || Ascii.eqb dquote "-") with false.
    change (Ascii.eqb dquote dquote) with true. cbv beta iota.
    now rewrite parse_string_body_escape.
  - destruct vs as [|v vs].
    + destruct fuel; [simpl in Hfuel; lia|reflexivity].
    + rewrite need_arr_cons in Hfuel. rewrite print_arr_cons.
      destruct fuel as [|n]; [lia|].
      inversion IH as [|? ? Hv Hvs]; subst.
      cbn [parse_value].
      change (is_digit "[" || Ascii.eqb "[" "-") with false.
      change (Ascii.eqb "[" dquote) with false.
      change (Ascii.eqb "[" "[") with true. cbv beta iota.
      rewrite skip_ws_print.
      destruct (print_head v (print_elems vs k)) as (c & r & E & _ & Hc & _).
      rewrite E, Hc, <- E.
      rewrite Hv by (apply no_digit_head_elems || lia).
      rewrite parse_elems_print by (assumption || lia). reflexivity.
  - destruct ms as [|[key v] ms].
    + destruct fuel; [simpl in Hfuel; lia|reflexivity].
    + rewrite need_obj_cons in Hfuel. rewrite print_obj_cons.
      destruct fuel as [|n]; [lia|].
      inversion IH as [|? ? Hv Hms]; subst. simpl in Hv.
      cbn [parse_value].
      change (is_digit "{" || Ascii.eqb "{" "-") with false.
      change (Ascii.eqb "{" dquote) with false.
      change (Ascii.eqb "{" "[") with false.
      change (Ascii.eqb "{" "{") with true. cbv beta iota.
      unfold quote at 1. rewrite (skip_ws_solid dquote) by reflexivity.
      change (Ascii.eqb dquote "}") with false. cbv beta iota.
      fold (quote key (String ":" (print v (print_members ms k)))).
      rewrite parse_member_print
        by (assumption || apply no_digit_head_members || lia).
      rewrite parse_members_print by (assumption || lia). reflexivity.
Qed.

Lemma length_append_string (s k : string) :
  String.length (s +:+ k) = (String.length s + String.length k)%nat.
Proof.
  induction s as [|c s IH]; [reflexivity|].
  change (String c s +:+ k) with (String c (s +:+ k)). simpl. now rewrite IH.
Qed.

Lemma length_escape s k : (String.length k <= String.length (escape s k))%nat.
Proof.
  induction s as [|c s IH]; simpl; [lia|].
  unfold escape_char.
  repeat match goal with |- context [if ?b then _ else _] => destruct b end;
    simpl; lia.
Qed.

Lemma length_print_number z k :
  (1 + String.length k <= String.length (print_number z k))%nat.
Proof.
  destruct (number_head z k) as (c & r & E & _).
  pose proof (f_equal String.length E) as HL.
  unfold print_number in *. rewrite length_append_string in HL.
  rewrite length_append_string.
  destruct (NilZero.string_of_int (Z.to_int z)) eqn:Es; simpl in *; [|lia].
  destruct z; discriminate Es || (simpl in Es).
  all: unfold NilZero.string_of_uint in Es;
       destruct (Pos.to_uint p); discriminate Es.
Qed.

Lemma length_print_elems vs k :
  Forall (fun v => forall k,
            (need v + String.length k <= String.length (print v k))%nat) vs ->
  (need_elems vs + String.length k <= String.length (print_elems vs k))%nat.
Proof.
  induction 1 as [|v vs Hv _ IH]; simpl; [lia|].
  specialize (Hv (print_elems vs k)). lia.
Qed.

Lemma length_print_members ms k :
  Forall (fun m => forall k,
            (need (snd m) + String.length k
             <= String.length (print (snd m) k))%nat) ms ->
  (need_members ms + String.length k
   <= String.length (print_members ms k))%nat.
Proof.
  induction 1 as [|[key v] ms Hv _ IH]; simpl in *; [lia|].
  specialize (Hv (print_members ms k)).
  pose proof (length_escape key
    (String dquote (String ":" (print v (print_members ms k))))) as He.
  simpl in He. lia.
Qed.

Lemma length_print v :
  forall k, (need v + String.length k <= String.length (print v k))%nat.
Proof.
  induction v as [|b|z|s|vs IH|ms IH] using json_induction; intros k.
  - simpl. lia.
  - destruct b; simpl; lia.
  - pose proof (length_print_number z k). simpl. lia.
  - pose proof (length_escape s (String dquote k)). simpl in *. lia.
  - destruct vs as [|v vs]; [simpl; lia|].
    rewrite need_arr_cons, print_arr_cons.
    inversion IH as [|? ? Hv Hvs]; subst.
    specialize (Hv (print_elems vs k)).
    pose proof (length_print_elems vs k Hvs). simpl. lia.
  - destruct ms as [|[key v] ms]; [simpl; lia|].
    rewrite need_obj_cons, print_obj_cons.
    inversion IH as [|? ? Hv Hms]; subst. simpl in Hv.
    specialize (Hv (print_members ms k)).
    pose proof (length_print_members ms k Hms).
    pose proof (length_escape key
      (String dquote (String ":" (print v (print_members ms k))))) as He.
    simpl in *. lia.
Qed.

(** [JSON.parse (JSON.stringify v)] is [v]. *)
Lemma parse_stringify v : parse (stringify v) = Some v.
Proof.
  unfold parse, stringify. rewrite skip_ws_print.
  pose proof (length_print v EmptyString) as HL. simpl in HL.
  rewrite parse_value_print by (exact I || lia). reflexivity.
Qed.

End json_codec.

(* ===================================================================== *)
(** ** The cart lines as JSON *)
(* ===================================================================== *)

Section line_codec.

Lemma as_nullable_string (o : option string) :
  as_nullable as_string (Some (json_of_option JStr o)) = Some o.
Proof. destruct o; reflexivity. Qed.

Lemma as_nullable_number (o : option Z) :
  as_nullable as_number (Some (json_of_option JNum o)) = Some o.
Proof. destruct o; reflexivity. Qed.

Lemma imagenes_of_json_of (l : list Imagen) :
  all_some imagen_of_json (map json_of_imagen l) = Some l.
Proof.
  induction l as [|[r b] l IH]; [reflexivity|].
  cbn [map all_some]. rewrite IH. reflexivity.
Qed.

Lemma line_of_json_of (item : CartLine) :
  line_of_json (json_of_line item) = Some item.
Proof.
  destruct item as [p q]; destruct p.
  unfold line_of_json, json_of_line.
  cbn -[json_of_option as_nullable all_some].
  rewrite !as_nullable_string, !as_nullable_number, imagenes_of_json_of.
  reflexivity.
Qed.

(** The lines read back from the JSON value of a list of lines. *)
Lemma items_of_json_of (l : list CartLine) :
  items_of_json (map json_of_line l) = Some l.
Proof.
  induction l as [|item l IH]; [reflexivity|].
  unfold items_of_json in *. cbn [map all_some].
  now rewrite line_of_json_of, IH.
Qed.

End line_codec.

(* ===================================================================== *)
(** ** The cart, operation by operation *)
(* ===================================================================== *)

(** Unfolds the plumbing of a computation. *)
Ltac monad :=
  cbv beta iota zeta delta
    [mbind M_bind mret M_ret get modify throw try_catch try_finally
     LocalStorage.getItem LocalStorage.setItem LocalStorage.removeItem
     Console.log Console.warn Console.error response_json run outcome].

(** Reads through the setters. *)
Ltac fields :=
  cbn [localStorage PRODUCTS productService server cart_modal items requests
       console screen set_localStorage set_items add_request add_console
       add_screen fst snd].

Section cart_facts.

Lemma fold_left_sum_over (f : CartLine -> Z) (l : list CartLine) (a : Z) :
  fold_left (fun total item => total + f item) l a = a + sum_over f l.
Proof.
  revert a. induction l as [|item l IH]; intros a; simpl; [lia|].
  rewrite IH. lia.
Qed.

Lemma getItemCount_eq w :
  Cart.getItemCount w = (Return (sum_over quantity (items w)), w).
Proof.
  unfold Cart.getItemCount. monad.
  now rewrite (fold_left_sum_over quantity).
Qed.

Lemma getTotal_eq w :
  Cart.getTotal w =
  (Return (sum_over (fun item => line_price item * quantity item) (items w)), w).
Proof.
  unfold Cart.getTotal. monad.
  now rewrite (fold_left_sum_over (fun item => line_price item * quantity item)).
Qed.

Lemma updateCartUI_eq w :
  Cart.updateCartUI w =
  (Return tt, add_screen (projection_of (cart_modal w) (items w)) w).
Proof.
  unfold Cart.updateCartUI. monad. rewrite getItemCount_eq.
  unfold projection_of.
  destruct (cart_modal w); [|reflexivity].
  destruct (items w) as [|item l] eqn:Hl; [reflexivity|].
  rewrite getTotal_eq, Hl. reflexivity.
Qed.

Lemma saveToStorage_eq w :
  Cart.saveToStorage w =
  (Return tt,
   set_localStorage (insert "cart" (JSON.stringify (json_of_items (items w)))) w).
Proof. reflexivity. Qed.

Lemma removeItem_eq x w :
  Cart.removeItem x w = (Return tt, commit (without x (items w)) w).
Proof.
  unfold Cart.removeItem. monad.
  rewrite saveToStorage_eq, updateCartUI_eq. reflexivity.
Qed.

Lemma updateQuantity_eq x q w :
  Cart.updateQuantity x q w =
  match find_item x (items w) with
  | Some _ =>
      (Return tt,
       commit (if q <=? 0 then without x (items w)
               else update_item x (set_quantity q) (items w)) w)
  | None => (Return tt, w)
  end.
Proof.
  unfold Cart.updateQuantity. monad.
  destruct (find_item x (items w)); [|reflexivity].
  destruct (q <=? 0); [apply removeItem_eq|].
  rewrite saveToStorage_eq, updateCartUI_eq. reflexivity.
Qed.

Lemma resolve_outcome x w : outcome (resolve x) w = Return (resolution w x).
Proof.
  unfold resolve, resolution, remote_product, getProductById,
    ProductService.getProductById, ProductService.apiRequest, fetch,
    product_request.
  monad. fields.
  destruct (find_product x (PRODUCTS w)) eqn:Hc; [reflexivity|].
  monad. rewrite Hc. monad.
  destruct (productService w); [|reflexivity]. monad.
  destruct (server w _) as [|r]; [reflexivity|]. monad; fields.
  destruct (ok r); [|reflexivity]. cbn [negb]. monad.
  destruct (json_body r) as [b|]; [|reflexivity]. monad; fields.
  destruct (success b); [|reflexivity]. monad.
  destruct (data b) as [d|]; [|reflexivity]. monad; fields.
  destruct (data_product d); reflexivity.
Qed.

Lemma resolve_same x w : same_but_logs w (run (resolve x) w).
Proof.
  unfold same_but_logs, resolve, getProductById,
    ProductService.getProductById, ProductService.apiRequest, fetch.
  monad. fields.
  destruct (find_product x (PRODUCTS w)) eqn:Hc; [repeat split; reflexivity|].
  monad. rewrite Hc. monad.
  destruct (productService w) eqn:Hs;
    [|repeat split; solve [reflexivity | exact Hs]].
  monad.
  destruct (server w _) as [|r];
    [repeat split; solve [reflexivity | exact Hs]|]. monad; fields.
  destruct (ok r);
    [|repeat split; solve [reflexivity | exact Hs]]. cbn [negb]. monad.
  destruct (json_body r) as [b|];
    [|repeat split; solve [reflexivity | exact Hs]]. monad; fields.
  destruct (success b);
    [|repeat split; solve [reflexivity | exact Hs]]. monad.
  destruct (data b) as [d|];
    [|repeat split; solve [reflexivity | exact Hs]]. monad; fields.
  destruct (data_product d); repeat split; solve [reflexivity | exact Hs].
Qed.

Lemma addItem_unfold x q :
  Cart.addItem x q =
  resolve x ≫= (fun product =>
    match product with
    | None => Console.warn "Producto no encontrado:" (Some x)
    | Some product =>
        l ← get items;
        match find_item x l with
        | Some existingItem =>
            modify (set_items (update_item x (add_quantity q) l))
        | None =>
            modify (set_items (l ++ [{| snapshot := product; quantity := q |}]))
        end;;
        Cart.saveToStorage;;
        Cart.updateCartUI
    end).
Proof. reflexivity. Qed.

(** [addItem], as a function of what the id resolves to. *)
Lemma addItem_eq x q w :
  Cart.addItem x q w =
  match resolution w x with
  | Some p => (Return tt, commit (upsert x q p (items w)) (run (resolve x) w))
  | None => (Return tt, add_console (not_found_warning x) (run (resolve x) w))
  end.
Proof.
  pose proof (resolve_outcome x w) as Ho.
  pose proof (resolve_same x w) as (_ & _ & _ & _ & Hm & Hi & _).
  rewrite addItem_unfold. unfold outcome, run in *.
  unfold mbind at 1, M_bind at 1.
  destruct (resolve x w) as [[o|e] w1]; cbn [fst snd] in *; [|discriminate Ho].
  injection Ho as ->.
  destruct (resolution w x) as [p|]; [|reflexivity].
  monad. unfold upsert. rewrite Hi.
  destruct (find_item x (items w)); monad;
    rewrite saveToStorage_eq, updateCartUI_eq; reflexivity.
Qed.

(** *** The lines of a cart *)

Lemma find_item_id x l e : find_item x l = Some e -> line_id e = x.
Proof.
  unfold find_item. intros H. apply find_some in H as [_ H].
  now apply String.eqb_eq.
Qed.

Lemma find_item_none x l :
  find_item x l = None <-> ~ In x (map line_id l).
Proof.
  unfold find_item. induction l as [|item l IH]; simpl; [tauto|].
  destruct (String.eqb_spec (line_id item) x) as [E|E].
  - split; [discriminate|]. intros H. destruct H. now left.
  - rewrite IH. tauto.
Qed.

Lemma update_item_ids x f l :
  (forall item, line_id (f item) = line_id item) ->
  map line_id (update_item x f l) = map line_id l.
Proof.
  intros Hf. induction l as [|item l IH]; simpl; [reflexivity|].
  destruct (String.eqb (line_id item) x); simpl; [now rewrite Hf|now rewrite IH].
Qed.


Lemma find_update_item x f l e :
  (forall item, line_id (f item) = line_id item) ->
  find_item x l = Some e -> find_item x (update_item x f l) = Some (f e).
Proof.
  unfold find_item. intros Hf. induction l as [|item l IH]; simpl; [discriminate|].
  destruct (String.eqb (line_id item) x) eqn:E; simpl.
  - intros [= ->]. now rewrite Hf, E.
  - intros H. rewrite E. now apply IH.
Qed.

Lemma find_update_other x y f l :
  (forall item, line_id (f item) = line_id item) -> y <> x ->
  find_item y (update_item x f l) = find_item y l.
Proof.
  unfold find_item. intros Hf Hy. induction l as [|item l IH]; simpl; [reflexivity|].
  destruct (String.eqb_spec (line_id item) x) as [E|E]; simpl.
  - rewrite Hf.
    destruct (String.eqb_spec (line_id item) y); [congruence|reflexivity].
  - now rewrite IH.
Qed.

Lemma find_without x l : find_item x (without x l) = None.
Proof.
  apply find_item_none. unfold without. rewrite in_map_iff.
  intros (item & E & Hin). apply filter_In in Hin as [_ H].
  apply Bool.negb_true_iff, String.eqb_neq in H. contradiction.
Qed.

Lemma without_absent x l : find_item x l = None -> without x l = l.
Proof.
  unfold find_item, without.
  induction l as [|item l IH]; simpl; [reflexivity|].
  destruct (String.eqb (line_id item) x); simpl; [discriminate|].
  intros H. now rewrite IH.
Qed.

Lemma without_without x l : without x (without x l) = without x l.
Proof. apply without_absent, find_without. Qed.



Lemma lines_of_app x l l' : lines_of x (l ++ l') = lines_of x l ++ lines_of x l'.
Proof. apply List.filter_app. Qed.




End cart_facts.


(** *** What an operation leaves of the backend *)

Section backend_frame.



Lemma same_but_logs_refl w : same_but_logs w w.
Proof. repeat split. Qed.


Lemma items_addItem x q w :
  items (run (Cart.addItem x q) w) =
  match resolution w x with
  | Some p => upsert x q p (items w)
  | None => items w
  end.
Proof.
  unfold run. rewrite addItem_eq.
  pose proof (resolve_same x w) as (_ & _ & _ & _ & _ & Hi & _).
  destruct (resolution w x); [reflexivity|exact Hi].
Qed.

End backend_frame.

(* ===================================================================== *)
(** ** The properties of the cart *)
(* ===================================================================== *)

(* ===================================================================== *)
(** ** Integers in the arithmetic of JavaScript *)
(* ===================================================================== *)

(** Sums and products of integers are exact as long as the operands and
    the result have 53 bits or fewer. *)
Section exact_integers.

Import Number.



















Lemma of_Z_0 : Number.of_Z 0 = S754_zero false.
Proof. reflexivity. Qed.












End exact_integers.

Section double_sums.







End double_sums.




Section unique_lines.





Lemma cached_product_id x w p : find_product x (PRODUCTS w) = Some p -> id p = x.
Proof.
  unfold find_product. intros H. apply find_some in H as [_ H].
  now apply String.eqb_eq.
Qed.

End unique_lines.





(** C4.  On a cart that has a line for the id, [updateQuantity(id, q)]
    with [q <= 0] removes the line, and with [q > 0] sets its quantity
    to [q], whatever [q] is: nothing bounds it from above. *)
Theorem updateQuantity_of_present_line
  (w : World) (x : string) (q : Z) (existing : CartLine) :
  find_item x (items w) = Some existing ->
  let w' := run (Cart.updateQuantity x q) w in
  outcome (Cart.updateQuantity x q) w = Return tt /\
  (q <= 0 ->
   items w' = without x (items w) /\ find_item x (items w') = None /\
   ~ In x (map line_id (items w'))) /\
  (0 < q ->
   items w' = update_item x (set_quantity q) (items w) /\
   find_item x (items w') = Some (set_quantity q existing) /\
   quantity (set_quantity q existing) = q /\
   map line_id (items w') = map line_id (items w)).
Proof.
  intros Hf w'. subst w'. unfold outcome, run.
  rewrite updateQuantity_eq, Hf. cbn [fst snd]. unfold commit. fields.
  split; [reflexivity|]. split; intros Hq.
  - apply Z.leb_le in Hq. rewrite Hq.
    pose proof (find_without x (items w)) as Hn.
    repeat split; [exact Hn|]. now apply find_item_none.
  - assert ((q <=? 0) = false) as -> by lia.
    repeat split.
    + now apply find_update_item.
    + now apply update_item_ids.
Qed.

Lemma updateQuantity_of_present_line_witness :
  let w := run (Cart.addItem "A" 1) Example.shop in
  find_item "A" (items (run (Cart.updateQuantity "A" 0) w)) = None /\
  find_item "A" (items (run (Cart.updateQuantity "A" (-5)) w)) = None /\
  option_map quantity (find_item "A" (items (run (Cart.updateQuantity "A" 25) w)))
  = Some 25.
Proof.
  intros w.
  assert (find_item "A" (items w)
          = Some {| snapshot := Example.product "A" 100; quantity := 1 |}) as H
    by reflexivity.
  pose proof (updateQuantity_of_present_line w "A" 0 _ H) as (_ & H0 & _).
  pose proof (updateQuantity_of_present_line w "A" (-5) _ H) as (_ & H5 & _).
  pose proof (updateQuantity_of_present_line w "A" 25 _ H) as (_ & _ & H25).
  destruct (H0 ltac:(lia)) as (_ & -> & _).
  destruct (H5 ltac:(lia)) as (_ & -> & _).
  destruct (H25 ltac:(lia)) as (_ & -> & _).
  repeat split.
Defined.

(** C5.  [removeItem(x)] returns without an error whether or not the
    cart has a line for [x], and leaves no line for [x]; a second
    [removeItem(x)] leaves the lines, the stored cart and the view as the
    first left them. *)
Theorem removeItem_idempotent (w : World) (x : string) :
  let w1 := run (Cart.removeItem x) w in
  let w2 := run (Cart.removeItem x) w1 in
  outcome (Cart.removeItem x) w = Return tt /\
  outcome (Cart.removeItem x) w1 = Return tt /\
  items w1 = without x (items w) /\
  find_item x (items w1) = None /\
  items w2 = items w1 /\
  localStorage w2 = localStorage w1 /\
  last (screen w2) = last (screen w1).
Proof.
  intros w1 w2. subst w1 w2. unfold outcome, run.
  rewrite !removeItem_eq. cbn [fst snd]. unfold commit. fields.
  rewrite without_without, !last_snoc, insert_insert_eq.
  repeat split. apply find_without.
Qed.

(** C10.  [updateQuantity(id, q)] on a cart without a line for the id
    does nothing at all, for every [q]: it returns, and the lines, the
    storage, the screen and the console are as they were. *)
Theorem updateQuantity_of_absent_line (w : World) (x : string) (q : Z) :
  find_item x (items w) = None ->
  Cart.updateQuantity x q w = (Return tt, w).
Proof.
  intros Hf. now rewrite updateQuantity_eq, Hf.
Qed.

Lemma updateQuantity_of_absent_line_witness :
  Cart.updateQuantity "ghost" (-2) Example.shop = (Return tt, Example.shop).
Proof.
  apply (updateQuantity_of_absent_line Example.shop "ghost" (-2)). reflexivity.
Defined.

Section failed_lookup.

Lemma remote_product_fails w x : LookupFails w x -> remote_product w x = None.
Proof.
  unfold remote_product.
  intros [Hs|Hr|r Hr Hok|r Hr Hb|r b Hr Hb Hsucc|r b Hr Hb Hd].
  - now rewrite Hs.
  - rewrite Hr. now destruct (productService w).
  - rewrite Hr, Hok. now destruct (productService w).
  - rewrite Hr, Hb. now destruct (productService w), (ok r).
  - rewrite Hr, Hb, Hsucc. now destruct (productService w), (ok r).
  - rewrite Hr, Hb. destruct (productService w), (ok r), (success b); try reflexivity.
    exact Hd.
Qed.

Lemma resolution_fails w x :
  find_product x (PRODUCTS w) = None -> LookupFails w x -> resolution w x = None.
Proof.
  intros Hc Hf. unfold resolution. now rewrite Hc, remote_product_fails.
Qed.

(** The failures listed are all there are. *)
Lemma resolution_none_inv w x :
  resolution w x = None ->
  find_product x (PRODUCTS w) = None /\ LookupFails w x.
Proof.
  unfold resolution, remote_product.
  destruct (find_product x (PRODUCTS w)); [discriminate|].
  intros H. split; [reflexivity|].
  destruct (productService w) eqn:Hs; [|now apply service_missing].
  destruct (server w (product_request w x)) as [|r] eqn:Hr;
    [now apply network_down|].
  destruct (ok r) eqn:Hok; [|now apply (http_error w x r)].
  destruct (json_body r) as [b|] eqn:Hb; [|now apply (body_unreadable w x r)].
  destruct (success b) eqn:Hsucc; [|now apply (not_success w x r b)].
  apply (product_missing w x r b Hr Hb).
  destruct (data b) as [d|]; [|reflexivity].
  destruct (data_product d); [discriminate H|reflexivity].
Qed.

End failed_lookup.

(** C6.  When the id is not in the cache and the remote lookup fails
    (the service is not loaded, the request is rejected, the status is
    not ok, the body is unreadable, [success] is not set, or the product
    is missing), [addItem(id, q)] returns without an error, leaves the
    lines, the stored cart and the view as they were, and the last line
    of the console is the warning about the id. *)
Theorem addItem_of_unknown_id (w : World) (x : string) (q : Z) :
  find_product x (PRODUCTS w) = None ->
  LookupFails w x ->
  let w' := run (Cart.addItem x q) w in
  outcome (Cart.addItem x q) w = Return tt /\
  items w' = items w /\
  localStorage w' = localStorage w /\
  screen w' = screen w /\
  last (console w') = Some (not_found_warning x).
Proof.
  intros Hc Hf w'. subst w'. unfold outcome, run.
  rewrite addItem_eq, (resolution_fails w x Hc Hf). cbn [fst snd]. fields.
  pose proof (resolve_same x w) as (Hs & _ & _ & _ & _ & Hi & Hscr).
  rewrite last_snoc. repeat split; assumption.
Qed.

Lemma addItem_of_unknown_id_witness :
  let w' := run (Cart.addItem "ghost" 1) Example.shop in
  outcome (Cart.addItem "ghost" 1) Example.shop = Return tt /\
  items w' = [] /\
  localStorage w' = ∅ /\
  screen w' = [] /\
  last (console w') = Some (not_found_warning "ghost").
Proof.
  apply (addItem_of_unknown_id Example.shop "ghost" 1); [reflexivity|].
  eapply http_error; reflexivity.
Defined.

(** C7, as the code has it.  Each operation that takes effect stores the
    lines it leaves under [cart] and shows them exactly once: [addItem]
    of an id that resolves, [removeItem], and [updateQuantity] of an id
    that has a line.  [addItem] of an id that does not resolve and
    [updateQuantity] of an id that has no line store nothing and show
    nothing. *)
Theorem effective_mutation_persisted_and_shown_once (w : World) :
  (forall x q p, resolution w x = Some p ->
                 persisted_and_shown_once (Cart.addItem x q) w) /\
  (forall x, persisted_and_shown_once (Cart.removeItem x) w) /\
  (forall x q existing, find_item x (items w) = Some existing ->
                        persisted_and_shown_once (Cart.updateQuantity x q) w) /\
  (forall x q, resolution w x = None ->
               localStorage (run (Cart.addItem x q) w) = localStorage w /\
               screen (run (Cart.addItem x q) w) = screen w) /\
  (forall x q, find_item x (items w) = None ->
               localStorage (run (Cart.updateQuantity x q) w) = localStorage w /\
               screen (run (Cart.updateQuantity x q) w) = screen w).
Proof.
  unfold persisted_and_shown_once, run. repeat apply conj.
  - intros x q p Hp. rewrite addItem_eq, Hp. cbn [snd]. unfold commit. fields.
    pose proof (resolve_same x w) as (_ & _ & _ & _ & Hm & _ & Hscr).
    unfold run in *. rewrite Hm, Hscr. split; [apply lookup_insert_eq|reflexivity].
  - intros x. rewrite removeItem_eq. unfold commit. fields.
    split; [apply lookup_insert_eq|reflexivity].
  - intros x q existing Hf. rewrite updateQuantity_eq, Hf. unfold commit. fields.
    split; [apply lookup_insert_eq|reflexivity].
  - intros x q Hp. rewrite addItem_eq, Hp. cbn [snd]. fields.
    pose proof (resolve_same x w) as (Hs & _ & _ & _ & _ & _ & Hscr).
    now split.
  - intros x q Hf. rewrite updateQuantity_eq, Hf. now split.
Qed.

Lemma effective_mutation_persisted_and_shown_once_witness :
  persisted_and_shown_once (Cart.addItem "sku-1" 2) Example.shop /\
  persisted_and_shown_once (Cart.updateQuantity "A" 4)
    (run (Cart.addItem "A" 1) Example.shop).
Proof.
  split.
  - refine (proj1 (effective_mutation_persisted_and_shown_once Example.shop)
              "sku-1" 2 _ _).
    reflexivity.
  - refine (proj1 (proj2 (proj2 (effective_mutation_persisted_and_shown_once _)))
              "A" 4 _ _).
    reflexivity.
Defined.

(** C7, as it is written, fails: [updateQuantity] of an id that has no
    line stores nothing and shows nothing. *)
Lemma mutation_not_always_persisted_and_shown :
  ~ persisted_and_shown_once (Cart.updateQuantity "ghost" 3) Example.shop.
Proof.
  intros [Hstored _]. vm_compute in Hstored. discriminate Hstored.
Qed.

Section storage.

Lemma loadFromStorage_eq w :
  Cart.loadFromStorage w =
  (Return match JSON.parse (or_else (localStorage w !! "cart") "[]") with
          | Some v => v
          | None => JArr []
          end, w).
Proof.
  unfold Cart.loadFromStorage. monad.
  destruct (JSON.parse _); reflexivity.
Qed.


Lemma constructor_of_lines w l :
  JSON.parse (or_else (localStorage w !! "cart") "[]") = Some (json_of_items l) ->
  Cart.constructor w =
  (Ready, add_screen (projection_of (cart_modal w) l) (set_items l w)).
Proof.
  intros Hparse. unfold Cart.constructor.
  rewrite loadFromStorage_eq, Hparse. unfold json_of_items.
  rewrite items_of_json_of, updateCartUI_eq. reflexivity.
Qed.

(** Nothing stored under [cart]: the cart starts empty. *)
Lemma constructor_without_stored_cart w :
  localStorage w !! "cart" = None ->
  Cart.loadFromStorage w = (Return (JArr []), w) /\
  fst (Cart.constructor w) = Ready /\ items (snd (Cart.constructor w)) = [].
Proof.
  intros Hnone.
  rewrite loadFromStorage_eq, (constructor_of_lines w []); rewrite Hnone;
    repeat split.
Qed.

(** A text under [cart] that [JSON.parse] rejects: the cart starts
    empty. *)
Lemma constructor_with_unparsable_cart w s :
  localStorage w !! "cart" = Some s -> JSON.parse s = None ->
  Cart.loadFromStorage w = (Return (JArr []), w) /\
  fst (Cart.constructor w) = Ready /\ items (snd (Cart.constructor w)) = [].
Proof.
  intros Hs Hparse.
  assert (JSON.parse (or_else (Some s) "[]") = Some (JArr []) \/
          JSON.parse (or_else (Some s) "[]") = None) as Hor.
  { unfold or_else. destruct (truthy_string s); [now right|now left]. }
  unfold Cart.constructor. rewrite loadFromStorage_eq, Hs.
  destruct Hor as [-> | ->]; cbn [items_of_json all_some];
    rewrite updateCartUI_eq; repeat split.
Qed.

Example broken_cart_starts_empty :
  fst (Cart.constructor Example.shop_with_broken_cart) = Ready /\
  items (snd (Cart.constructor Example.shop_with_broken_cart)) = [].
Proof.
  apply (constructor_with_unparsable_cart Example.shop_with_broken_cart "[{");
    reflexivity.
Qed.

End storage.



(** C9, where the code departs from it.  With the text [null] under
    [cart], [JSON.parse] succeeds, [loadFromStorage] returns [null], and
    the constructor throws when [updateCartUI] reads [this.items.reduce]. *)
Theorem constructor_throws_on_stored_null :
  Cart.loadFromStorage Example.shop_with_null_cart
  = (Return JNull, Example.shop_with_null_cart) /\
  fst (Cart.constructor Example.shop_with_null_cart)
  = Crashed (TypeError "Cannot read properties of null (reading 'reduce')").
Proof. split; reflexivity. Qed.

(* ===================================================================== *)
(** ** The authenticated client *)
(* ===================================================================== *)

Section auth_facts.

(** A refresh that is granted: one request, the new token stored. *)
Lemma refreshToken_granted w token :
  truthy (localStorage w !! "refreshToken") = true ->
  refresh_grant w = Some token ->
  AuthService.refreshToken w =
  (Return true,
   set_localStorage (insert "accessToken" token)
     (add_request (refresh_request w) w)).
Proof.
  intros Hrt. unfold refresh_grant, AuthService.refreshToken, fetch.
  monad. rewrite Hrt. cbn [negb]. monad. fields.
  fold (refresh_request w).
  destruct (server w (refresh_request w)) as [|r]; [discriminate|]. monad.
  destruct (json_body r) as [b|]; [|discriminate]. monad.
  destruct (success b); [|discriminate].
  destruct (data b) as [d|]; [|discriminate]. monad.
  now intros [= <-].
Qed.

(** A refresh that is refused: one request, nothing stored. *)
Lemma refreshToken_refused w :
  truthy (localStorage w !! "refreshToken") = true ->
  refresh_grant w = None ->
  outcome AuthService.refreshToken w = Return false /\
  requests (run AuthService.refreshToken w) = requests w ++ [refresh_request w] /\
  localStorage (run AuthService.refreshToken w) = localStorage w /\
  server (run AuthService.refreshToken w) = server w.
Proof.
  intros Hrt. unfold refresh_grant, AuthService.refreshToken, fetch.
  monad. rewrite Hrt. cbn [negb]. monad. fields.
  fold (refresh_request w).
  destruct (server w (refresh_request w)) as [|r]; [repeat split|]. monad.
  destruct (json_body r) as [b|]; [|repeat split]. monad.
  destruct (success b); [|repeat split].
  destruct (data b) as [d|]; [discriminate|]. repeat split.
Qed.

(** [logout] returns, whatever the server answers, and leaves none of
    the three session keys. *)
Lemma logout_clears_session w :
  outcome AuthService.logout w = Return tt /\
  localStorage (run AuthService.logout w) !! "accessToken" = None /\
  localStorage (run AuthService.logout w) !! "refreshToken" = None /\
  localStorage (run AuthService.logout w) !! "currentUser" = None.
Proof.
  unfold AuthService.logout. monad.
  destruct (AuthService.apiRequest "/auth/logout" "POST" None w) as [[b|e] w1];
    fields; cbn [fst snd]; fields;
    (split; [reflexivity|]);
    rewrite ?lookup_delete_eq;
    repeat (rewrite lookup_delete_ne by discriminate; rewrite ?lookup_delete_eq);
    repeat split.
Qed.

Lemma isAuthenticated_without_token w :
  localStorage w !! "accessToken" = None ->
  outcome AuthService.isAuthenticated w = Return false.
Proof.
  intros H. unfold AuthService.isAuthenticated. monad. now rewrite H.
Qed.

(** [apiRequest] on a 401, in a session that holds both tokens. *)
Lemma apiRequest_unauthorized w endpoint m bd r b :
  truthy (localStorage w !! "accessToken") = true ->
  truthy (localStorage w !! "refreshToken") = true ->
  server w (original_request w endpoint m bd) = Replied r ->
  ok r = false -> status r = 401 -> json_body r = Some b ->
  let original := original_request w endpoint m bd in
  let w' := run (AuthService.apiRequest endpoint m bd) w in
  (forall token,
     refresh_grant w = Some token ->
     outcome (AuthService.apiRequest endpoint m bd) w
     = retry_result w (retry_request original token) /\
     requests w'
     = requests w ++ [original; refresh_request w; retry_request original token]) /\
  (refresh_grant w = None ->
   outcome (AuthService.apiRequest endpoint m bd) w
   = Throw (Error (or_else (message b) "Error en la petición")) /\
   requests w' = requests w ++ [original; refresh_request w] /\
   localStorage w' = localStorage w).
Proof.
  intros Hat Hrt Hsrv Hok Hst Hb original w'.
  subst w'. unfold AuthService.apiRequest, fetch.
  monad. fields. fold (original_request w endpoint m bd). fold original.
  fold original in Hsrv. rewrite Hsrv. monad. rewrite Hb, Hok, Hst, Hat.
  cbn [negb Z.eqb Pos.eqb andb]. monad.
  set (w1 := add_request original w).
  assert (truthy (localStorage w1 !! "refreshToken") = true) as Hrt1 by exact Hrt.
  assert (refresh_grant w1 = refresh_grant w) as Hg1 by reflexivity.
  split.
  - intros token Hg. rewrite <- Hg1 in Hg.
    rewrite (refreshToken_granted w1 token Hrt1 Hg). monad. fields.
    rewrite lookup_insert_eq. cbn [string_or].
    change (refresh_request w1) with (refresh_request w).
    change {| url := url original; method := method original;
              authorization := Some ("Bearer " +:+ token);
              body := body original |}
      with (retry_request original token).
    unfold retry_result. subst w1. monad. fields.
    destruct (server w (retry_request original token)) as [|rr]; monad; fields.
    + rewrite <- ?app_assoc. split; reflexivity.
    + destruct (json_body rr); monad; fields;
        rewrite <- ?app_assoc; split; reflexivity.
  - intros Hg. rewrite <- Hg1 in Hg.
    pose proof (refreshToken_refused w1 Hrt1 Hg) as (Ho & Hreq & Hls & _).
    unfold outcome, run in *.
    destruct (AuthService.refreshToken w1) as [res w2]. cbn [fst snd] in *.
    subst res. monad. fields. rewrite Hreq, Hls. subst w1. fields.
    rewrite <- ?app_assoc. repeat split.
Qed.

(** Whatever the backend answers, one [apiRequest] sends the original
    request, at most one refresh and at most one retry. *)
Lemma apiRequest_sends_at_most_three w endpoint m bd :
  let original := original_request w endpoint m bd in
  exists rest,
    requests (run (AuthService.apiRequest endpoint m bd) w)
    = requests w ++ original :: rest /\
    (rest = [] \/ rest = [refresh_request w] \/
     exists token,
       rest = [refresh_request w; retry_request original token]).
Proof.
  intros original. unfold AuthService.apiRequest, fetch.
  monad. fields. fold (original_request w endpoint m bd). fold original.
  destruct (server w original) as [|r]; monad; fields;
    [exists []; split; [reflexivity|now left]|].
  destruct (json_body r) as [b|]; monad; fields;
    [|exists []; split; [reflexivity|now left]].
  destruct (ok r); cbn [negb]; monad; fields;
    [exists []; split; [reflexivity|now left]|].
  destruct ((status r =? 401) && truthy (localStorage w !! "accessToken"));
    monad; fields; [|exists []; split; [reflexivity|now left]].
  unfold AuthService.refreshToken, fetch. monad. fields.
  destruct (truthy (localStorage w !! "refreshToken")); cbn [negb]; monad; fields;
    [|exists []; split; [reflexivity|now left]].
  fold (refresh_request w).
  destruct (server w (refresh_request w)) as [|r']; monad; fields;
    [exists [refresh_request w]; split; [now rewrite <- app_assoc|now right; left]|].
  destruct (json_body r') as [b'|]; monad; fields;
    [|exists [refresh_request w]; split; [now rewrite <- app_assoc|now right; left]].
  destruct (success b'); monad; fields;
    [|exists [refresh_request w]; split; [now rewrite <- app_assoc|now right; left]].
  destruct (data b') as [d|]; monad; fields;
    [|exists [refresh_request w]; split; [now rewrite <- app_assoc|now right; left]].
  rewrite lookup_insert_eq. cbn [string_or].
  set (token := string_or "undefined" (data_accessToken d)).
  change {| url := url original; method := method original;
            authorization := Some ("Bearer " +:+ token);
            body := body original |}
    with (retry_request original token).
  exists [refresh_request w; retry_request original token].
  split; [|right; right; now exists token].
  destruct (server w (retry_request original token)) as [|rr]; monad; fields;
    [now rewrite <- !app_assoc|].
  destruct (json_body rr); monad; fields; now rewrite <- !app_assoc.
Qed.

End auth_facts.

Section detached_logout.

Lemma refreshToken_without_token w :
  truthy (localStorage w !! "refreshToken") = false ->
  AuthService.refreshToken w = (Return false, w).
Proof.
  intros Hrt. unfold AuthService.refreshToken. monad. now rewrite Hrt.
Qed.

(** [apiRequest] on a 401, in a session that holds no refresh token: the
    refresh sends nothing. *)
Lemma apiRequest_unauthorized_without_refresh_token w endpoint m bd r b :
  truthy (localStorage w !! "accessToken") = true ->
  truthy (localStorage w !! "refreshToken") = false ->
  server w (original_request w endpoint m bd) = Replied r ->
  ok r = false -> status r = 401 -> json_body r = Some b ->
  AuthService.apiRequest endpoint m bd w
  = (Throw (Error (or_else (message b) "Error en la petición")),
     add_console
       {| level := Err; text := "Error en API request:";
          detail := Some (or_else (message b) "Error en la petición") |}
       (add_request (original_request w endpoint m bd) w)).
Proof.
  intros Hat Hrt Hsrv Hok Hst Hb.
  unfold AuthService.apiRequest, fetch. monad. fields.
  fold (original_request w endpoint m bd). rewrite Hsrv. monad.
  rewrite Hb, Hok, Hst, Hat. cbn [negb Z.eqb Pos.eqb andb]. monad.
  rewrite refreshToken_without_token by exact Hrt. reflexivity.
Qed.

(** [fetch] is its two moments, one after the other. *)
Lemma fetch_send_receive r w :
  fetch r w = (AuthService.send r;; AuthService.receive r) w.
Proof.
  unfold fetch, AuthService.send, AuthService.receive. monad. fields.
  now destruct (server w r).
Qed.

(** [apiRequest] is the sending of its request followed by the rest. *)
Lemma apiRequest_resumes w endpoint m bd :
  AuthService.apiRequest endpoint m bd w
  = (AuthService.send (original_request w endpoint m bd);;
     AuthService.apiRequest_resumed (localStorage w !! "accessToken")
       (original_request w endpoint m bd)) w.
Proof.
  unfold AuthService.apiRequest, AuthService.apiRequest_resumed, fetch,
    AuthService.send, AuthService.receive, original_request.
  monad. fields.
  destruct (server w _) as [|r]; monad; fields; reflexivity.
Qed.

(** A [logout()] that is awaited is the one that is started, followed at
    once by its rest. *)
Lemma logout_awaited w :
  AuthService.logout w = (running ← AuthService.logout_started; running) w.
Proof.
  unfold AuthService.logout, AuthService.logout_started.
  unfold try_finally at 1. unfold try_catch at 1.
  unfold mbind at 1, M_bind at 1.
  rewrite apiRequest_resumes.
  unfold AuthService.send, original_request. monad. fields. reflexivity.
Qed.

(** The rest of a started [logout], run in any world: it returns, and
    none of the three session keys is left. *)
Lemma logout_started_clears_session w :
  exists running,
    AuthService.logout_started w
    = (Return running,
       add_request (original_request w "/auth/logout" "POST" None) w) /\
    forall u,
      outcome running u = Return tt /\
      localStorage (run running u) !! "accessToken" = None /\
      localStorage (run running u) !! "refreshToken" = None /\
      localStorage (run running u) !! "currentUser" = None /\
      outcome AuthService.isAuthenticated (run running u) = Return false.
Proof.
  unfold AuthService.logout_started, AuthService.send, original_request.
  monad. fields. eexists. split; [reflexivity|].
  intros u. unfold outcome, run. monad.
  destruct (AuthService.apiRequest_resumed _ _ u) as [[b|e] w1];
    cbn [fst snd]; fields;
    (split; [reflexivity|]);
    rewrite ?lookup_delete_eq;
    repeat (rewrite lookup_delete_ne by discriminate; rewrite ?lookup_delete_eq);
    (repeat (split; [reflexivity|]));
    apply isAuthenticated_without_token; fields;
    rewrite lookup_delete_ne by discriminate;
    rewrite lookup_delete_ne by discriminate;
    apply lookup_delete_eq.
Qed.

(** [getCurrentUser] when [apiRequest] throws: it returns [null] with the
    storage as [apiRequest] left it, having started a [logout]. *)
Lemma getCurrentUser_after_a_failure w e w1 :
  AuthService.apiRequest "/auth/me" "GET" None w = (Throw e, w1) ->
  exists running,
    outcome AuthService.getCurrentUser w = Return (None, Some running) /\
    localStorage (run AuthService.getCurrentUser w) = localStorage w1 /\
    requests (run AuthService.getCurrentUser w)
    = requests w1 ++ [original_request w1 "/auth/logout" "POST" None] /\
    forall u,
      outcome running u = Return tt /\
      localStorage (run running u) !! "accessToken" = None /\
      localStorage (run running u) !! "refreshToken" = None /\
      localStorage (run running u) !! "currentUser" = None /\
      outcome AuthService.isAuthenticated (run running u) = Return false.
Proof.
  intros Hapi. unfold AuthService.getCurrentUser, outcome, run.
  monad. rewrite Hapi. monad.
  set (w2 := add_console _ w1).
  destruct (logout_started_clears_session w2) as (running & Hstart & Hclears).
  rewrite Hstart. cbn [fst snd]. fields.
  exists running. repeat split; try reflexivity; apply Hclears.
Qed.

End detached_logout.

(** C8, as it is stated, fails twice.  A 401 whose body is not JSON is
    never refreshed: [apiRequest] reads the body before it looks at the
    status, and throws.  And when the refresh is refused,
    [getCurrentUser] returns [null] with the three session keys still
    stored: it starts [logout()] and does not wait for it. *)
Lemma a_401_is_not_always_refreshed_nor_the_session_cleared_on_return :
  (let w := Example.session_behind_a_proxy in
   truthy (localStorage w !! "accessToken") = true /\
   (exists r, server w (original_request w "/auth/me" "GET" None) = Replied r /\
              status r = 401) /\
   outcome (AuthService.apiRequest "/auth/me" "GET" None) w = Throw SyntaxError /\
   requests (run (AuthService.apiRequest "/auth/me" "GET" None) w)
   = [original_request w "/auth/me" "GET" None]) /\
  (let w := Example.session false in
   let w' := run AuthService.getCurrentUser w in
   refresh_grant w = None /\
   (exists running,
      outcome AuthService.getCurrentUser w = Return (None, Some running)) /\
   localStorage w' !! "accessToken" = Some "old" /\
   localStorage w' !! "refreshToken" = Some "r1" /\
   localStorage w' !! "currentUser" = Some (JSON.stringify Example.user) /\
   outcome AuthService.isAuthenticated w' = Return true).
Proof.
  split.
  - split; [reflexivity|]. split; [eexists; split; reflexivity|].
    split; reflexivity.
  - split; [reflexivity|]. split; [eexists; reflexivity|].
    repeat split; reflexivity.
Qed.

(** C8, as amended.  Whatever the backend answers, one [apiRequest]
    sends its request, then at most one refresh request, then at most
    one retry.  A request that carried an access token and is answered
    by 401 with a JSON body is followed by one call of [refreshToken]:
    without a stored refresh token it sends nothing and the failure is
    thrown; with one it sends exactly one refresh request, and when the
    refresh is granted the original request is sent once more, with the
    new token, and its reply is what the caller gets, while when it is
    refused nothing is sent again and the failure is thrown.  For
    [getCurrentUser]: after a granted refresh the requests are the
    original, the refresh and the retry, and the user of the retried
    reply is returned; after a refresh that fails it returns [null],
    the three session keys being still stored, and has started a
    [logout()], whose request has left; when that logout has run,
    whatever the state in which it resumes, the three keys are gone and
    [isAuthenticated()] is false. *)
Theorem unauthorized_request_is_refreshed_and_retried_once
  (w : World) (endpoint m : string) (bd : option string) :
  let original := original_request w endpoint m bd in
  let w' := run (AuthService.apiRequest endpoint m bd) w in
  (exists rest,
     requests w' = requests w ++ original :: rest /\
     (rest = [] \/ rest = [refresh_request w] \/
      exists token, rest = [refresh_request w; retry_request original token])) /\
  (forall (r : Response) (b : Body),
     truthy (localStorage w !! "accessToken") = true ->
     server w original = Replied r ->
     ok r = false -> status r = 401 -> json_body r = Some b ->
     (truthy (localStorage w !! "refreshToken") = false ->
      outcome (AuthService.apiRequest endpoint m bd) w
      = Throw (Error (or_else (message b) "Error en la petición")) /\
      requests w' = requests w ++ [original] /\
      localStorage w' = localStorage w) /\
     (truthy (localStorage w !! "refreshToken") = true ->
      (forall token,
         refresh_grant w = Some token ->
         outcome (AuthService.apiRequest endpoint m bd) w
         = retry_result w (retry_request original token) /\
         requests w'
         = requests w
             ++ [original; refresh_request w; retry_request original token]) /\
      (refresh_grant w = None ->
       outcome (AuthService.apiRequest endpoint m bd) w
       = Throw (Error (or_else (message b) "Error en la petición")) /\
       requests w' = requests w ++ [original; refresh_request w] /\
       localStorage w' = localStorage w)) /\
     (endpoint = "/auth/me" -> m = "GET" -> bd = None ->
      let w'' := run AuthService.getCurrentUser w in
      (truthy (localStorage w !! "refreshToken") = false \/
       refresh_grant w = None ->
       exists running,
         outcome AuthService.getCurrentUser w = Return (None, Some running) /\
         localStorage w'' = localStorage w /\
         (exists sent,
            requests w''
            = requests w ++ original :: sent
                ++ [original_request w "/auth/logout" "POST" None] /\
            (sent = [] \/ sent = [refresh_request w])) /\
         forall u,
           outcome running u = Return tt /\
           localStorage (run running u) !! "accessToken" = None /\
           localStorage (run running u) !! "refreshToken" = None /\
           localStorage (run running u) !! "currentUser" = None /\
           outcome AuthService.isAuthenticated (run running u) = Return false) /\
      (forall token reply,
         truthy (localStorage w !! "refreshToken") = true ->
         refresh_grant w = Some token ->
         retry_result w (retry_request original token) = Return reply ->
         success reply = false \/ is_Some (data reply) ->
         requests w''
         = requests w
             ++ [original; refresh_request w; retry_request original token] /\
         outcome AuthService.getCurrentUser w
         = Return (if success reply then data reply ≫= data_user else None,
                   None)))).
Proof.
  intros original w'.
  split; [apply apiRequest_sends_at_most_three|].
  intros r b Hat Hsrv Hok Hst Hb.
  assert (truthy (localStorage w !! "refreshToken") = false ->
          outcome (AuthService.apiRequest endpoint m bd) w
          = Throw (Error (or_else (message b) "Error en la petición")) /\
          requests w' = requests w ++ [original] /\
          localStorage w' = localStorage w) as Hnone.
  { intros Hrt. subst w'. unfold outcome, run.
    rewrite (apiRequest_unauthorized_without_refresh_token
               w endpoint m bd r b Hat Hrt Hsrv Hok Hst Hb).
    cbn [fst snd]. fields. repeat split. }
  assert (truthy (localStorage w !! "refreshToken") = true ->
          (forall token,
             refresh_grant w = Some token ->
             outcome (AuthService.apiRequest endpoint m bd) w
             = retry_result w (retry_request original token) /\
             requests w'
             = requests w
                 ++ [original; refresh_request w; retry_request original token]) /\
          (refresh_grant w = None ->
           outcome (AuthService.apiRequest endpoint m bd) w
           = Throw (Error (or_else (message b) "Error en la petición")) /\
           requests w' = requests w ++ [original; refresh_request w] /\
           localStorage w' = localStorage w)) as Hsome.
  { intros Hrt.
    exact (apiRequest_unauthorized w endpoint m bd r b Hat Hrt Hsrv Hok Hst Hb). }
  split; [exact Hnone|]. split; [exact Hsome|].
  intros -> -> -> w''. subst w'' w'. fold original in Hnone, Hsome.
  split.
  - intros Hfails.
    assert (exists msg sent,
              outcome (AuthService.apiRequest "/auth/me" "GET" None) w
              = Throw (Error msg) /\
              requests (run (AuthService.apiRequest "/auth/me" "GET" None) w)
              = requests w ++ original :: sent /\
              localStorage (run (AuthService.apiRequest "/auth/me" "GET" None) w)
              = localStorage w /\
              (sent = [] \/ sent = [refresh_request w])) as Hthrown.
    { destruct (truthy (localStorage w !! "refreshToken")) eqn:Hrt.
      - destruct Hfails as [Hfalse|Hgrant]; [discriminate|].
        destruct (Hsome eq_refl) as (_ & Hrefused).
        destruct (Hrefused Hgrant) as (Ho & Hreq & Hls).
        exists (or_else (message b) "Error en la petición"), [refresh_request w].
        repeat split; [exact Ho|exact Hreq|exact Hls|now right].
      - destruct (Hnone eq_refl) as (Ho & Hreq & Hls).
        exists (or_else (message b) "Error en la petición"), [].
        repeat split; [exact Ho|exact Hreq|exact Hls|now left]. }
    destruct Hthrown as (msg & sent & Ho & Hreq & Hls & Hsent).
    unfold outcome, run in Ho, Hreq, Hls.
    destruct (AuthService.apiRequest "/auth/me" "GET" None w) as [res w1] eqn:Hapi.
    cbn [fst snd] in Ho, Hreq, Hls. subst res.
    destruct (getCurrentUser_after_a_failure w _ w1 Hapi)
      as (running & Hout & Hstore & Hrequests & Hclears).
    exists running. split; [exact Hout|]. split; [now rewrite Hstore|].
    split; [|exact Hclears].
    exists sent. split; [|exact Hsent].
    rewrite Hrequests, Hreq. unfold original_request. rewrite Hls.
    rewrite <- app_assoc. reflexivity.
  - intros token reply Hrt Hg Hretry Hshape.
    destruct (Hsome Hrt) as (Hgranted & _).
    destruct (Hgranted token Hg) as (Ho & Hreq).
    unfold outcome, run in *. unfold AuthService.getCurrentUser. monad.
    destruct (AuthService.apiRequest "/auth/me" "GET" None w) as [res w1].
    cbn [fst snd] in *. subst res. rewrite Hretry.
    destruct (success reply) eqn:Hsucc.
    + destruct Hshape as [|[d Hd]]; [discriminate|]. rewrite Hd. monad. fields.
      split; [exact Hreq|reflexivity].
    + split; [exact Hreq|reflexivity].
Qed.

Lemma unauthorized_request_is_refreshed_and_retried_once_witness :
  (let w := Example.session true in
   requests (run AuthService.getCurrentUser w)
   = [original_request w "/auth/me" "GET" None; refresh_request w;
      retry_request (original_request w "/auth/me" "GET" None) "new"] /\
   outcome AuthService.getCurrentUser w = Return (Some Example.user, None)) /\
  (let w := Example.session false in
   exists running,
     outcome AuthService.getCurrentUser w = Return (None, Some running) /\
     localStorage (run AuthService.getCurrentUser w) = localStorage w /\
     localStorage (run running (run AuthService.getCurrentUser w))
       !! "accessToken" = None /\
     outcome AuthService.isAuthenticated
       (run running (run AuthService.getCurrentUser w)) = Return false).
Proof.
  split; intros w.
  - pose proof (proj2 (unauthorized_request_is_refreshed_and_retried_once
                         w "/auth/me" "GET" None) _ _
                  eq_refl eq_refl eq_refl eq_refl eq_refl)
      as (_ & _ & H).
    destruct (H eq_refl eq_refl eq_refl) as (_ & Hgranted).
    apply (Hgranted "new" _ eq_refl eq_refl eq_refl). right. eexists. reflexivity.
  - pose proof (proj2 (unauthorized_request_is_refreshed_and_retried_once
                         w "/auth/me" "GET" None) _ _
                  eq_refl eq_refl eq_refl eq_refl eq_refl)
      as (_ & _ & H).
    destruct (H eq_refl eq_refl eq_refl) as (Hrefused & _).
    destruct (Hrefused (or_intror eq_refl))
      as (running & Hout & Hstore & _ & Hclears).
    exists running. split; [exact Hout|]. split; [exact Hstore|].
    destruct (Hclears (run AuthService.getCurrentUser w))
      as (_ & Hkey & _ & _ & Hauth).
    split; [exact Hkey|exact Hauth].
Defined.

(* ===================================================================== *)
(** ** Further properties of the cart *)
(* ===================================================================== *)

Section cart_accounting.

Lemma sum_over_app f l l' : sum_over f (l ++ l') = sum_over f l + sum_over f l'.
Proof. induction l as [|i l IH]; simpl; [reflexivity|]. rewrite IH. lia. Qed.

Lemma sum_over_update_item f x g l e :
  find_item x l = Some e ->
  sum_over f (update_item x g l) = sum_over f l - f e + f (g e).
Proof.
  unfold find_item. induction l as [|i l IH]; simpl; [discriminate|].
  destruct (String.eqb (line_id i) x); simpl.
  - intros [= ->]. lia.
  - intros H. rewrite (IH H). lia.
Qed.

Lemma sum_over_without f x l :
  sum_over f l = sum_over f (without x l) + sum_over f (lines_of x l).
Proof.
  unfold without, lines_of. induction l as [|i l IH]; simpl; [reflexivity|].
  destruct (String.eqb (line_id i) x); simpl; rewrite IH; lia.
Qed.

Lemma lines_of_without x y l : y <> x -> lines_of y (without x l) = lines_of y l.
Proof.
  intros Hy. unfold without, lines_of.
  induction l as [|i l IH]; simpl; [reflexivity|].
  destruct (String.eqb_spec (line_id i) x) as [E|E]; simpl.
  - destruct (String.eqb_spec (line_id i) y); [congruence|exact IH].
  - destruct (String.eqb (line_id i) y); now rewrite IH.
Qed.

Lemma lines_of_update_item x y f l :
  (forall item, line_id (f item) = line_id item) -> y <> x ->
  lines_of y (update_item x f l) = lines_of y l.
Proof.
  intros Hf Hy. unfold lines_of.
  induction l as [|i l IH]; simpl; [reflexivity|].
  destruct (String.eqb_spec (line_id i) x) as [E|E]; simpl.
  - rewrite Hf. destruct (String.eqb_spec (line_id i) y); [congruence|reflexivity].
  - destruct (String.eqb (line_id i) y); now rewrite IH.
Qed.

Lemma outcome_run_op op w : outcome (run_op op) w = Return tt.
Proof.
  unfold outcome. destruct op as [x q|x|x q]; cbn [run_op].
  - rewrite addItem_eq. now destruct (resolution w x).
  - now rewrite removeItem_eq.
  - rewrite updateQuantity_eq. now destruct (find_item x (items w)).
Qed.

End cart_accounting.

(** X1.  No operation of the cart throws, whatever the backend answers
    and whatever the cart holds, and the only key of the storage that an
    operation writes is [cart]: the keys of the session stay as they
    are. *)
Theorem cart_operations_never_throw_and_write_only_cart
  (op : CartOp) (w : World) :
  outcome (run_op op) w = Return tt /\
  forall key, key <> "cart" ->
              localStorage (run (run_op op) w) !! key = localStorage w !! key.
Proof.
  split; [apply outcome_run_op|]. intros key Hkey.
  unfold run. destruct op as [x q|x|x q]; cbn [run_op].
  - rewrite addItem_eq.
    pose proof (resolve_same x w) as (Hs & _).
    destruct (resolution w x); cbn [snd]; unfold commit; fields.
    + rewrite lookup_insert_ne by congruence. now rewrite Hs.
    + now rewrite Hs.
  - rewrite removeItem_eq. unfold commit. fields.
    now rewrite lookup_insert_ne by congruence.
  - rewrite updateQuantity_eq. destruct (find_item x (items w)); [|reflexivity].
    unfold commit. fields. now rewrite lookup_insert_ne by congruence.
Qed.

Lemma cart_operations_never_throw_and_write_only_cart_witness :
  localStorage (run (Cart.addItem "A" 1) (Example.session true)) !! "accessToken"
  = Some "old".
Proof.
  exact (eq_trans
           (proj2 (cart_operations_never_throw_and_write_only_cart
                     (AddItem "A" 1) (Example.session true))
              "accessToken" ltac:(discriminate))
           eq_refl).
Defined.

(** X3.  An operation on one id leaves the lines of every other id as
    they are, in number, order and content; for [addItem] this holds when
    the product the id resolves to carries that id. *)
Theorem operations_leave_other_lines (w : World) (x y : string) :
  y <> x ->
  lines_of y (items (run (Cart.removeItem x) w)) = lines_of y (items w) /\
  (forall q,
     lines_of y (items (run (Cart.updateQuantity x q) w)) = lines_of y (items w)) /\
  (forall q p,
     resolution w x = Some p -> id p = x ->
     lines_of y (items (run (Cart.addItem x q) w)) = lines_of y (items w)).
Proof.
  intros Hy. split; [|split].
  - unfold run. rewrite removeItem_eq. unfold commit. fields.
    now apply lines_of_without.
  - intros q. unfold run. rewrite updateQuantity_eq.
    destruct (find_item x (items w)); [|reflexivity].
    unfold commit. fields. destruct (q <=? 0).
    + now apply lines_of_without.
    + now apply lines_of_update_item.
  - intros q p Hp Hid. rewrite items_addItem, Hp. unfold upsert.
    destruct (find_item x (items w)).
    + now apply lines_of_update_item.
    + rewrite lines_of_app. unfold lines_of at 2, line_id. cbn.
      rewrite Hid. destruct (String.eqb_spec x y); [congruence|].
      apply app_nil_r.
Qed.

Lemma operations_leave_other_lines_witness :
  let w := run_ops [AddItem "A" 1; AddItem "B" 2] Example.shop in
  lines_of "B" (items (run (Cart.removeItem "A") w)) = lines_of "B" (items w) /\
  lines_of "B" (items (run (Cart.updateQuantity "A" 9) w)) = lines_of "B" (items w).
Proof.
  intros w.
  pose proof (operations_leave_other_lines w "A" "B" ltac:(discriminate))
    as (Hr & Hu & _).
  split; [exact Hr|exact (Hu 9)].
Defined.



Section reload.


Lemma constructor_keeps_storage w :
  localStorage (snd (Cart.constructor w)) = localStorage w /\
  requests (snd (Cart.constructor w)) = requests w /\
  console (snd (Cart.constructor w)) = console w.
Proof.
  unfold Cart.constructor. rewrite loadFromStorage_eq.
  destruct (JSON.parse _) as [[| | | |vs|]|];
    try solve [repeat split; reflexivity].
  - destruct (items_of_json vs); [|repeat split; reflexivity].
    rewrite updateCartUI_eq. repeat split.
  - cbn [items_of_json all_some]. rewrite updateCartUI_eq. repeat split.
Qed.



End reload.



(** X8.  [new Cart()] reads the storage and writes nothing: whatever is
    stored, and whether it returns or throws, the storage is as it was,
    no request is sent and nothing is written on the console.  An empty
    text under [cart] is read as an empty cart. *)
Theorem constructor_only_reads (w : World) :
  localStorage (snd (Cart.constructor w)) = localStorage w /\
  requests (snd (Cart.constructor w)) = requests w /\
  console (snd (Cart.constructor w)) = console w /\
  (localStorage w !! "cart" = Some EmptyString ->
   fst (Cart.constructor w) = Ready /\ items (snd (Cart.constructor w)) = []).
Proof.
  destruct (constructor_keeps_storage w) as (Hs & Hr & Hc).
  repeat split; try assumption.
  - rewrite (constructor_of_lines w []); [reflexivity|]. now rewrite H.
  - rewrite (constructor_of_lines w []); [reflexivity|]. now rewrite H.
Qed.

Lemma constructor_only_reads_witness :
  let w := set_localStorage (insert "cart" EmptyString) Example.shop in
  fst (Cart.constructor w) = Ready /\ items (snd (Cart.constructor w)) = [].
Proof.
  intros w.
  exact (proj2 (proj2 (proj2 (constructor_only_reads w))) eq_refl).
Defined.

(* ===================================================================== *)
(** ** Further properties of the catalog lookup *)
(* ===================================================================== *)

Section product_service.

(** [ProductService.apiRequest], reply by reply. *)
Lemma product_apiRequest_eq endpoint w :
  let request :=
    {| url := API_BASE_URL +:+ endpoint; method := "GET";
       authorization := bearer (localStorage w !! "accessToken");
       body := None |} in
  outcome (ProductService.apiRequest endpoint) w
  = match server w request with
    | Rejected => Throw FetchFailed
    | Replied r =>
        if ok r then
          match json_body r with
          | Some b => Return b
          | None => Throw SyntaxError
          end
        else
          Throw (Error (or_else
                          match json_body r with
                          | Some b => message b
                          | None => None
                          end
                          ("Error " +:+ decimal (status r) +:+ ": "
                             +:+ statusText r)))
    end /\
  requests (run (ProductService.apiRequest endpoint) w) = requests w ++ [request] /\
  localStorage (run (ProductService.apiRequest endpoint) w) = localStorage w /\
  items (run (ProductService.apiRequest endpoint) w) = items w /\
  screen (run (ProductService.apiRequest endpoint) w) = screen w.
Proof.
  intros request. subst request.
  unfold ProductService.apiRequest, fetch. monad. fields.
  destruct (server w _) as [|r]; monad; fields; [repeat split|].
  destruct (ok r); cbn [negb]; monad; fields; [|repeat split].
  destruct (json_body r); monad; fields; repeat split.
Qed.

End product_service.

(** X9.  The product service sends exactly one request for one call, with
    the bearer of the stored token when there is one, and never refreshes
    or retries, whatever the status; it leaves the storage as it was.
    It returns the body of a reply with an ok status and a JSON body,
    and throws otherwise: the rejection of a request that is rejected; a
    syntax error for an ok status with a body that is not JSON; and for
    a status that is not ok an error with the message of the reply, or,
    when the reply has no message, an empty one or a body that is not
    JSON, with the text [Error <status>: <statusText>]. *)
Theorem product_apiRequest_sends_one_request (w : World) (endpoint : string) :
  let request :=
    {| url := API_BASE_URL +:+ endpoint; method := "GET";
       authorization := bearer (localStorage w !! "accessToken");
       body := None |} in
  let w' := run (ProductService.apiRequest endpoint) w in
  let default r := "Error " +:+ decimal (status r) +:+ ": " +:+ statusText r in
  requests w' = requests w ++ [request] /\
  localStorage w' = localStorage w /\
  (server w request = Rejected ->
   outcome (ProductService.apiRequest endpoint) w = Throw FetchFailed) /\
  (forall r b, server w request = Replied r -> ok r = true ->
     json_body r = Some b ->
     outcome (ProductService.apiRequest endpoint) w = Return b) /\
  (forall r, server w request = Replied r -> ok r = true ->
     json_body r = None ->
     outcome (ProductService.apiRequest endpoint) w = Throw SyntaxError) /\
  (forall r b m, server w request = Replied r -> ok r = false ->
     json_body r = Some b -> message b = Some m -> m <> EmptyString ->
     outcome (ProductService.apiRequest endpoint) w = Throw (Error m)) /\
  (forall r, server w request = Replied r -> ok r = false ->
     json_body r = None \/
     (exists b, json_body r = Some b /\
                (message b = None \/ message b = Some EmptyString)) ->
     outcome (ProductService.apiRequest endpoint) w = Throw (Error (default r))).
Proof.
  intros request w' default.
  destruct (product_apiRequest_eq endpoint w) as (Ho & Hr & Hs & _).
  fold request in Ho, Hr. subst w'.
  split; [exact Hr|]. split; [exact Hs|].
  split; [intros Hsrv; now rewrite Hsrv in Ho|].
  split; [intros r b Hsrv Hok Hb; now rewrite Hsrv, Hok, Hb in Ho|].
  split; [intros r Hsrv Hok Hb; now rewrite Hsrv, Hok, Hb in Ho|].
  split.
  - intros r b m Hsrv Hok Hb Hm Hne. rewrite Hsrv, Hok, Hb, Hm in Ho.
    rewrite Ho. unfold or_else. destruct m; [contradiction|reflexivity].
  - intros r Hsrv Hok Hnone. rewrite Hsrv, Hok in Ho. rewrite Ho.
    destruct Hnone as [-> | (b & -> & [-> | ->])]; reflexivity.
Qed.

Lemma product_apiRequest_sends_one_request_witness :
  outcome (ProductService.apiRequest "/products/nope") Example.shop
  = Throw (Error "Producto no encontrado") /\
  length (requests (run (ProductService.apiRequest "/products/nope") Example.shop))
  = 1%nat.
Proof.
  pose proof (product_apiRequest_sends_one_request Example.shop "/products/nope")
    as (Hreq & _ & _ & _ & _ & Hfail & _).
  split.
  - exact (Hfail _ _ _ eq_refl eq_refl eq_refl eq_refl ltac:(discriminate)).
  - now rewrite Hreq.
Defined.

(** X10.  [productService.getProductById] never throws: every failure of
    the request comes back as a result whose [success] is false, whose
    [product] is [null] and whose [message] is not empty; [success] is
    true exactly for a reply with an ok status and a JSON body whose
    [success] is set and that has a [data] member, and the product is
    then [data.product].  One request is sent in every case. *)
Theorem productService_getProductById_never_throws (w : World) (x : string) :
  exists result,
    outcome (ProductService.getProductById x) w = Return result /\
    requests (run (ProductService.getProductById x) w)
    = requests w ++ [product_request w x] /\
    (ProductService.lookup_success result = false ->
     ProductService.lookup_product result = None /\
     exists m, ProductService.lookup_message result = Some m /\ m <> EmptyString) /\
    (ProductService.lookup_success result = true <->
     exists r b d,
       server w (product_request w x) = Replied r /\ ok r = true /\
       json_body r = Some b /\ success b = true /\ data b = Some d /\
       ProductService.lookup_product result = data_product d).
Proof.
  unfold ProductService.getProductById, ProductService.apiRequest, fetch,
    product_request.
  monad. fields.
  set (request := {| url := API_BASE_URL +:+ "/products/" +:+ x; method := "GET";
                     authorization := bearer (localStorage w !! "accessToken");
                     body := None |}).
  assert (forall e, or_else (Some (error_message e)) "Error al obtener producto"
                    <> EmptyString) as Hmsg.
  { intros e. unfold or_else. destruct (error_message e); discriminate. }
  destruct (server w request) as [|r] eqn:Hsrv; monad; fields.
  { eexists. split; [reflexivity|]. split; [reflexivity|]. split.
    - intros _. split; [reflexivity|]. eexists. split; [reflexivity|apply Hmsg].
    - split; [discriminate|]. intros (? & ? & ? & [=] & _). }
  destruct (ok r) eqn:Hok; cbn [negb]; monad; fields.
  2:{ eexists. split; [reflexivity|]. split; [reflexivity|]. split.
      - intros _. split; [reflexivity|]. eexists. split; [reflexivity|apply Hmsg].
      - split; [discriminate|]. intros (? & ? & ? & [= <-] & ? & _). congruence. }
  destruct (json_body r) as [b|] eqn:Hb; monad; fields.
  2:{ eexists. split; [reflexivity|]. split; [reflexivity|]. split.
      - intros _. split; [reflexivity|]. eexists. split; [reflexivity|apply Hmsg].
      - split; [discriminate|]. intros (? & ? & ? & [= <-] & ? & ? & _). congruence. }
  destruct (success b) eqn:Hsucc; monad; fields.
  2:{ eexists. split; [reflexivity|]. split; [reflexivity|]. split.
      - intros _. split; [reflexivity|]. eexists. split; [reflexivity|apply Hmsg].
      - split; [discriminate|].
        intros (? & ? & ? & [= <-] & ? & ? & ? & _). congruence. }
  destruct (data b) as [d|] eqn:Hd; monad; fields.
  2:{ eexists. split; [reflexivity|]. split; [reflexivity|]. split.
      - intros _. split; [reflexivity|]. eexists. split; [reflexivity|apply Hmsg].
      - split; [discriminate|].
        intros (? & ? & ? & [= <-] & ? & ? & ? & ? & _). congruence. }
  eexists. split; [reflexivity|]. split; [reflexivity|]. split.
  - discriminate.
  - split; [|reflexivity]. intros _. exists r, b, d. repeat split; assumption.
Qed.

(** X11.  [getProductById] of [main.js] never throws.  For an id in the
    cache it returns the cached product and does nothing else: no
    request, no line on the console.  For an id that is not in the cache
    it sends one request when the product service is loaded and none
    when it is not, and gives the formatted product of the reply or
    [null]; the cache, the cart, the storage and the screen are never
    changed. *)
Theorem getProductById_uses_the_cache_first (w : World) (x : string) :
  outcome (getProductById x) w = Return (resolution w x) /\
  same_but_logs w (run (getProductById x) w) /\
  (forall p, find_product x (PRODUCTS w) = Some p ->
             getProductById x w = (Return (Some p), w) /\ id p = x) /\
  (find_product x (PRODUCTS w) = None ->
   requests (run (getProductById x) w)
   = requests w ++ (if productService w then [product_request w x] else [])).
Proof.
  pose proof (resolve_outcome x w) as Ho.
  pose proof (resolve_same x w) as Hs.
  unfold outcome, run, resolve in *. revert Ho Hs. monad.
  destruct (find_product x (PRODUCTS w)) as [c|] eqn:Hc.
  - intros Ho Hs.
    assert (getProductById x w = (Return (Some c), w)) as Hg
      by (unfold getProductById; monad; now rewrite Hc).
    rewrite Hg. cbn [fst snd].
    split; [unfold resolution; now rewrite Hc|].
    split; [apply same_but_logs_refl|].
    split; [|discriminate].
    intros cached [= <-]. split; [reflexivity|].
    now apply (cached_product_id x w).
  - intros Ho Hs. split; [exact Ho|]. split; [exact Hs|].
    split; [discriminate|]. intros _.
    unfold getProductById. monad. rewrite Hc. monad.
    destruct (productService w); monad; [|now rewrite app_nil_r].
    destruct (productService_getProductById_never_throws w x)
      as (result & Hres & Hreq & _).
    unfold outcome, run in *.
    destruct (ProductService.getProductById x w) as [res w1].
    cbn [fst snd] in *. subst res.
    destruct (ProductService.lookup_success result),
      (ProductService.lookup_product result); exact Hreq.
Qed.

Lemma getProductById_uses_the_cache_first_witness :
  getProductById "A" Example.shop
  = (Return (Some (Example.product "A" 100)), Example.shop) /\
  length (requests (run (getProductById "sku-1") Example.shop)) = 1%nat.
Proof.
  pose proof (getProductById_uses_the_cache_first Example.shop "A") as (_ & _ & Hhit & _).
  pose proof (getProductById_uses_the_cache_first Example.shop "sku-1") as (_ & _ & _ & Hmiss).
  split.
  - exact (proj1 (Hhit _ eq_refl)).
  - now rewrite (Hmiss eq_refl).
Defined.

(** X12.  [getMainImage] never gives an empty path for a product without
    images: it gives the [image] of the product when that is not empty
    and the placeholder otherwise.  For a product with images it gives
    the path of one of them, a principal one when there is any and the
    first one when there is none.  [formatProductForFrontend] puts this
    path in [image], and an empty list in [imagenes] for a product
    without the member. *)
Theorem getMainImage_picks_an_image (product : Api.product) :
  match Api.imagenes product with
  | None | Some [] =>
      ProductService.getMainImage product <> EmptyString /\
      ProductService.getMainImage product
      = or_else (Api.image product) "assets/placeholder.jpg"
  | Some (first :: rest) =>
      exists img,
        In img (first :: rest) /\
        ProductService.getMainImage product = ruta img /\
        ((exists i, In i (first :: rest) /\ es_principal i = true) ->
         es_principal img = true) /\
        ((forall i, In i (first :: rest) -> es_principal i = false) ->
         img = first)
  end /\
  image (ProductService.formatProductForFrontend product)
  = ProductService.getMainImage product /\
  (Api.imagenes product = None ->
   imagenes (ProductService.formatProductForFrontend product) = []).
Proof.
  split; [|split; [reflexivity|intros H; cbn; now rewrite H]].
  unfold ProductService.getMainImage.
  assert (or_else (Api.image product) "assets/placeholder.jpg" <> EmptyString) as Hne.
  { unfold or_else. destruct (Api.image product) as [[|c s]|]; discriminate. }
  destruct (Api.imagenes product) as [[|first rest]|]; try (split; [exact Hne|reflexivity]).
  destruct (find es_principal (first :: rest)) as [main|] eqn:Hfind.
  - apply find_some in Hfind as [Hin Hp].
    exists main. split; [exact Hin|]. split; [reflexivity|].
    split; [intros _; exact Hp|].
    intros Hnone. specialize (Hnone main Hin). congruence.
  - exists first. split; [now left|]. split; [reflexivity|].
    split; [|reflexivity].
    intros (i & Hin & Hp).
    pose proof (find_none _ _ Hfind i Hin). congruence.
Qed.

(* ===================================================================== *)
(** ** Further properties of the authenticated client *)
(* ===================================================================== *)

Section auth_more.

(** [apiRequest] writes no key of the storage but [accessToken]. *)
Lemma apiRequest_keeps_other_keys w endpoint m bd key :
  key <> "accessToken" ->
  localStorage (run (AuthService.apiRequest endpoint m bd) w) !! key
  = localStorage w !! key.
Proof.
  intros Hkey. unfold AuthService.apiRequest, fetch. monad. fields.
  destruct (server w _) as [|r]; monad; fields; [reflexivity|].
  destruct (json_body r) as [b|]; monad; fields; [|reflexivity].
  destruct (ok r); cbn [negb]; monad; fields; [reflexivity|].
  destruct ((status r =? 401) && truthy (localStorage w !! "accessToken"));
    monad; fields; [|reflexivity].
  unfold AuthService.refreshToken, fetch. monad. fields.
  destruct (truthy (localStorage w !! "refreshToken")); cbn [negb]; monad; fields;
    [|reflexivity].
  destruct (server w _) as [|r']; monad; fields; [reflexivity|].
  destruct (json_body r') as [b'|]; monad; fields; [|reflexivity].
  destruct (success b'); monad; fields; [|reflexivity].
  destruct (data b') as [d|]; monad; fields; [|reflexivity].
  destruct (server w _) as [|rr]; monad; fields;
    [now rewrite lookup_insert_ne by congruence|].
  destruct (json_body rr); monad; fields;
    now rewrite lookup_insert_ne by congruence.
Qed.

Lemma logout_keeps_other_keys w key :
  key <> "accessToken" -> key <> "refreshToken" -> key <> "currentUser" ->
  localStorage (run AuthService.logout w) !! key = localStorage w !! key.
Proof.
  intros Ha Hr Hu.
  pose proof (apiRequest_keeps_other_keys w "/auth/logout" "POST" None key Ha) as Hk.
  unfold AuthService.logout, run in *. monad.
  destruct (AuthService.apiRequest "/auth/logout" "POST" None w) as [[b|e] w1];
    cbn [fst snd] in *; fields;
    rewrite !lookup_delete_ne by congruence; exact Hk.
Qed.

Lemma logout_requests w :
  exists rest,
    requests (run AuthService.logout w)
    = requests w ++ original_request w "/auth/logout" "POST" None :: rest.
Proof.
  destruct (apiRequest_sends_at_most_three w "/auth/logout" "POST" None)
    as (rest & Hreq & _).
  exists rest. unfold AuthService.logout, run in *. monad.
  destruct (AuthService.apiRequest "/auth/logout" "POST" None w) as [[b|e] w1];
    cbn [fst snd] in *; fields; exact Hreq.
Qed.

End auth_more.

(** X13.  [logout] never throws and always ends with the three keys of
    the session removed, so that [isAuthenticated()] is false, whether
    the server confirms, refuses or cannot be reached; it tells the
    server first, and leaves every other key of the storage, the stored
    cart among them, as it was. *)
Theorem logout_always_clears_the_session (w : World) :
  let w' := run AuthService.logout w in
  outcome AuthService.logout w = Return tt /\
  localStorage w' !! "accessToken" = None /\
  localStorage w' !! "refreshToken" = None /\
  localStorage w' !! "currentUser" = None /\
  outcome AuthService.isAuthenticated w' = Return false /\
  (forall key, key <> "accessToken" -> key <> "refreshToken" ->
               key <> "currentUser" ->
               localStorage w' !! key = localStorage w !! key) /\
  localStorage w' !! "cart" = localStorage w !! "cart" /\
  (exists rest,
     requests w'
     = requests w ++ original_request w "/auth/logout" "POST" None :: rest) /\
  items w' = items w.
Proof.
  intros w'. subst w'.
  destruct (logout_clears_session w) as (Ho & Ha & Hr & Hu).
  split; [exact Ho|]. split; [exact Ha|]. split; [exact Hr|]. split; [exact Hu|].
  split; [now apply isAuthenticated_without_token|].
  split; [intros key; apply logout_keeps_other_keys|].
  split; [apply logout_keeps_other_keys; discriminate|].
  split; [apply logout_requests|].
  unfold AuthService.logout, run. monad.
  assert (items (snd (AuthService.apiRequest "/auth/logout" "POST" None w)) = items w)
    as Hitems.
  { unfold AuthService.apiRequest, AuthService.refreshToken, fetch. monad. fields.
    destruct (server w _) as [|r]; monad; fields; [reflexivity|].
    destruct (json_body r) as [b|]; monad; fields; [|reflexivity].
    destruct (ok r); cbn [negb]; monad; fields; [reflexivity|].
    destruct ((status r =? 401) && truthy (localStorage w !! "accessToken"));
      monad; fields; [|reflexivity].
    destruct (truthy (localStorage w !! "refreshToken")); cbn [negb]; monad; fields;
      [|reflexivity].
    destruct (server w _) as [|r']; monad; fields; [reflexivity|].
    destruct (json_body r') as [b'|]; monad; fields; [|reflexivity].
    destruct (success b'); monad; fields; [|reflexivity].
    destruct (data b') as [d|]; monad; fields; [|reflexivity].
    destruct (server w _) as [|rr]; monad; fields; [reflexivity|].
    destruct (json_body rr); monad; fields; reflexivity. }
  destruct (AuthService.apiRequest "/auth/logout" "POST" None w) as [[b|e] w1];
    cbn [fst snd] in *; fields; exact Hitems.
Qed.

(** X14.  [refreshToken] never throws.  Without a stored refresh token it
    returns false and sends nothing.  With one it sends one request,
    which carries the refresh token in its body and no bearer; it
    returns true exactly when the reply has a JSON body whose [success]
    is set and that has a [data] member, and then stores the new access
    token.  It never changes the stored refresh token or the stored
    user. *)
Theorem refreshToken_never_throws (w : World) :
  let w' := run AuthService.refreshToken w in
  (exists granted, outcome AuthService.refreshToken w = Return granted) /\
  localStorage w' !! "refreshToken" = localStorage w !! "refreshToken" /\
  localStorage w' !! "currentUser" = localStorage w !! "currentUser" /\
  (truthy (localStorage w !! "refreshToken") = false ->
   AuthService.refreshToken w = (Return false, w)) /\
  (truthy (localStorage w !! "refreshToken") = true ->
   requests w' = requests w ++ [refresh_request w] /\
   authorization (refresh_request w) = None /\
   match refresh_grant w with
   | Some token =>
       outcome AuthService.refreshToken w = Return true /\
       localStorage w' = <["accessToken" := token]> (localStorage w)
   | None =>
       outcome AuthService.refreshToken w = Return false /\
       localStorage w' = localStorage w
   end).
Proof.
  intros w'. subst w'.
  destruct (truthy (localStorage w !! "refreshToken")) eqn:Hrt.
  - pose proof (refreshToken_granted w) as Hg.
    pose proof (refreshToken_refused w Hrt) as Hr.
    destruct (refresh_grant w) as [token|].
    + specialize (Hg token Hrt eq_refl). unfold outcome, run. rewrite Hg.
      cbn [fst snd]. fields.
      split; [eauto|]. split; [now rewrite lookup_insert_ne by discriminate|].
      split; [now rewrite lookup_insert_ne by discriminate|].
      split; [discriminate|]. intros _. repeat split.
    + destruct (Hr eq_refl) as (Ho & Hreq & Hls & _).
      split; [eauto|]. split; [now rewrite Hls|]. split; [now rewrite Hls|].
      split; [discriminate|]. intros _. repeat split; assumption.
  - assert (AuthService.refreshToken w = (Return false, w)) as Heq.
    { unfold AuthService.refreshToken. monad. now rewrite Hrt. }
    unfold outcome, run. rewrite Heq. cbn [fst snd].
    split; [eauto|]. split; [reflexivity|]. split; [reflexivity|].
    split; [reflexivity|discriminate].
Qed.

Lemma refreshToken_never_throws_witness :
  outcome AuthService.refreshToken (Example.session true) = Return true /\
  localStorage (run AuthService.refreshToken (Example.session true)) !! "accessToken"
  = Some "new" /\
  AuthService.refreshToken Example.shop = (Return false, Example.shop).
Proof.
  pose proof (refreshToken_never_throws (Example.session true))
    as (_ & _ & _ & _ & Hwith).
  pose proof (refreshToken_never_throws Example.shop) as (_ & _ & _ & Hwithout & _).
  destruct (Hwith eq_refl) as (_ & _ & Ho & Hls).
  split; [exact Ho|]. split; [now rewrite Hls|]. exact (Hwithout eq_refl).
Defined.

(** X15.  The client refreshes only for a reply that has a JSON body and
    the status 401, to a request that carried a token.  In every other
    case one request is sent and the storage is not touched: a rejected
    request throws; a reply whose body is not JSON throws a syntax error
    whatever its status, be it 200 or 401; a reply with an ok status
    gives its body; any other reply throws an error with the message of
    the reply, or a default one. *)
Theorem apiRequest_refreshes_only_on_401_with_token
  (w : World) (endpoint m : string) (bd : option string) :
  let original := original_request w endpoint m bd in
  let w' := run (AuthService.apiRequest endpoint m bd) w in
  let untouched := requests w' = requests w ++ [original] /\
                   localStorage w' = localStorage w in
  (server w original = Rejected ->
   outcome (AuthService.apiRequest endpoint m bd) w = Throw FetchFailed /\
   untouched) /\
  (forall r, server w original = Replied r -> json_body r = None ->
     outcome (AuthService.apiRequest endpoint m bd) w = Throw SyntaxError /\
     untouched) /\
  (forall r b, server w original = Replied r -> json_body r = Some b ->
     ok r = true ->
     outcome (AuthService.apiRequest endpoint m bd) w = Return b /\ untouched) /\
  (forall r b, server w original = Replied r -> json_body r = Some b ->
     ok r = false ->
     status r <> 401 \/ truthy (localStorage w !! "accessToken") = false ->
     outcome (AuthService.apiRequest endpoint m bd) w
     = Throw (Error (or_else (message b) "Error en la petición")) /\
     untouched).
Proof.
  intros original w' untouched. subst w' untouched.
  unfold AuthService.apiRequest, fetch. monad. fields.
  fold (original_request w endpoint m bd). fold original.
  split; [|split; [|split]].
  - intros ->. monad. fields. repeat split.
  - intros r -> Hb. monad. rewrite Hb. monad. fields. repeat split.
  - intros r b -> Hb Hok. monad. rewrite Hb, Hok. monad. fields. repeat split.
  - intros r b -> Hb Hok Hno. monad. rewrite Hb, Hok. cbn [negb]. monad.
    assert ((status r =? 401) && truthy (localStorage w !! "accessToken") = false)
      as ->.
    { destruct Hno as [Hst| ->]; [|apply andb_false_r].
      apply Z.eqb_neq in Hst. now rewrite Hst. }
    monad. fields. repeat split.
Qed.

Lemma apiRequest_refreshes_only_on_401_with_token_witness :
  let w := set_localStorage (delete "accessToken") (Example.session true) in
  requests (run (AuthService.apiRequest "/auth/me" "GET" None) w)
  = [original_request w "/auth/me" "GET" None] /\
  outcome (AuthService.apiRequest "/auth/me" "GET" None) w
  = Throw (Error "Token expirado").
Proof.
  intros w.
  pose proof (apiRequest_refreshes_only_on_401_with_token w "/auth/me" "GET" None)
    as (_ & _ & _ & H).
  destruct (H _ _ eq_refl eq_refl eq_refl (or_intror eq_refl)) as (Ho & Hreq & _).
  split; [exact Hreq|exact Ho].
Defined.

(* ===================================================================== *)
(** ** Signing in, and the session at page load *)
(* ===================================================================== *)

Section session_facts.

Lemma register_is_sign_in email password nombre_completo telefono :
  AuthService.register email password nombre_completo telefono
  = sign_in "/auth/register"
      (register_body email password nombre_completo telefono)
      "Error al registrar" "Error al registrar usuario".
Proof. reflexivity. Qed.

Lemma login_is_sign_in email password :
  AuthService.login email password
  = sign_in "/auth/login" (login_body email password)
      "Error al iniciar sesión" "Error al iniciar sesión".
Proof. reflexivity. Qed.

(** [apiRequest] leaves the storage as it was, or with a renewed access
    token in the place of one that was there. *)
Lemma apiRequest_storage_shape w endpoint m bd :
  localStorage (run (AuthService.apiRequest endpoint m bd) w) = localStorage w \/
  (truthy (localStorage w !! "accessToken") = true /\
   exists token,
     localStorage (run (AuthService.apiRequest endpoint m bd) w)
     = <["accessToken" := token]> (localStorage w)).
Proof.
  unfold AuthService.apiRequest, fetch. monad. fields.
  destruct (server w _) as [|r]; monad; fields; [now left|].
  destruct (json_body r) as [b|]; monad; fields; [|now left].
  destruct (ok r); cbn [negb]; monad; fields; [now left|].
  destruct (truthy (localStorage w !! "accessToken")) eqn:Htoken;
    [|rewrite andb_false_r; monad; fields; now left].
  destruct (status r =? 401); cbn [andb]; monad; fields; [|now left].
  unfold AuthService.refreshToken, fetch. monad. fields.
  destruct (truthy (localStorage w !! "refreshToken")); cbn [negb]; monad; fields;
    [|now left].
  destruct (server w _) as [|r']; monad; fields; [now left|].
  destruct (json_body r') as [b'|]; monad; fields; [|now left].
  destruct (success b'); monad; fields; [|now left].
  destruct (data b') as [d|]; monad; fields; [|now left].
  destruct (server w _) as [|rr]; monad; fields; [right; eauto|].
  destruct (json_body rr); monad; fields; right; eauto.
Qed.

Lemma stringify_truthy v : truthy_string (JSON.stringify v) = true.
Proof.
  unfold JSON.stringify.
  pose proof (length_print v EmptyString) as HL.
  assert (1 <= need v)%nat as Hneed
    by (destruct v as [| | | |[|? ?]|[|[? ?] ?]]; simpl; lia).
  destruct (JSON.print v EmptyString); [|reflexivity].
  simpl in HL. lia.
Qed.

Lemma granted_session_renewed d token ls :
  granted_session d (<["accessToken" := token]> ls) = granted_session d ls.
Proof. unfold granted_session. now rewrite insert_insert_eq. Qed.

Lemma or_else_truthy a b :
  truthy_string b = true -> truthy_string (or_else a b) = true.
Proof.
  intros Hb. unfold or_else. destruct a as [s|]; [|exact Hb].
  destruct (truthy_string s) eqn:Hs; [exact Hs|exact Hb].
Qed.

(** The user that [getStoredUser] reads back from a stored session. *)
Lemma getStoredUser_of_granted d ls w :
  localStorage w = granted_session d ls ->
  AuthService.getStoredUser w = (Return (default JNull (data_user d)), w).
Proof.
  intros Hls. unfold AuthService.getStoredUser. monad.
  rewrite Hls. unfold granted_session. rewrite lookup_insert_eq.
  destruct (data_user d) as [u|]; cbn [truthy default from_option id].
  - rewrite stringify_truthy. monad. unfold Datatypes.id.
    rewrite parse_stringify. reflexivity.
  - reflexivity.
Qed.

Lemma isAuthenticated_of_granted d ls w :
  localStorage w = granted_session d ls ->
  outcome AuthService.isAuthenticated w
  = Return (truthy_string (string_or "undefined" (data_accessToken d))).
Proof.
  intros Hls. unfold AuthService.isAuthenticated. monad.
  rewrite Hls. unfold granted_session.
  rewrite lookup_insert_eq.
  rewrite lookup_insert_ne by discriminate.
  rewrite lookup_insert_ne by discriminate.
  rewrite lookup_insert_eq. cbn [truthy fst].
  destruct (data_user d) as [u|]; [rewrite stringify_truthy|cbn [truthy_string]];
    now rewrite andb_true_r.
Qed.

Lemma apiRequest_without_token w endpoint m bd :
  truthy (localStorage w !! "accessToken") = false ->
  outcome (AuthService.apiRequest endpoint m bd) w
  = plain_reply w (original_request w endpoint m bd).
Proof.
  intros Htoken. unfold AuthService.apiRequest, fetch, plain_reply. monad. fields.
  fold (original_request w endpoint m bd).
  destruct (server w _) as [|r]; monad; fields; [reflexivity|].
  destruct (json_body r) as [b|]; monad; fields; [|reflexivity].
  destruct (ok r); cbn [negb]; monad; fields; [reflexivity|].
  rewrite Htoken, andb_false_r. monad. reflexivity.
Qed.

Lemma granted_session_keys d ls :
  granted_session d ls !! "accessToken"
  = Some (string_or "undefined" (data_accessToken d)) /\
  granted_session d ls !! "refreshToken"
  = Some (string_or "undefined" (data_refreshToken d)) /\
  granted_session d ls !! "currentUser"
  = Some (match data_user d with
          | Some user => JSON.stringify user
          | None => "undefined"
          end).
Proof.
  unfold granted_session. repeat split.
  - rewrite lookup_insert_ne by discriminate.
    rewrite lookup_insert_ne by discriminate. apply lookup_insert_eq.
  - rewrite lookup_insert_ne by discriminate. apply lookup_insert_eq.
  - apply lookup_insert_eq.
Qed.

Lemma sign_in_stores_session_or_nothing endpoint body' refused failed w :
  truthy_string failed = true ->
  stores_session_or_nothing (sign_in endpoint body' refused failed)
    endpoint body' w.
Proof.
  intros Hfailed. unfold stores_session_or_nothing.
  destruct (apiRequest_sends_at_most_three w endpoint "POST" (Some body'))
    as (rest & Hreq & _).
  pose proof (apiRequest_storage_shape w endpoint "POST" (Some body')) as Hshape.
  pose proof (apiRequest_keeps_other_keys w endpoint "POST" (Some body')) as Hkeys.
  split; [|split; [apply apiRequest_without_token|]].
  { unfold sign_in, run in *. monad.
    destruct (AuthService.apiRequest endpoint "POST" (Some body') w)
      as [[b|e] w1]; cbn [fst snd] in *; [|monad; fields; eauto].
    destruct (success b); monad; fields; [|eauto].
    destruct (data b) as [d|]; monad; fields; eauto. }
  unfold sign_in, run, outcome in *. monad.
  destruct (AuthService.apiRequest endpoint "POST" (Some body') w) as [[b|e] w1];
    cbn [fst snd] in *.
  - destruct (success b) eqn:Hsuccess; monad; fields.
    + destruct (data b) as [d|] eqn:Hdata; monad; fields.
      * eexists. split; [reflexivity|]. cbn beta iota.
        exists b, d. split; [reflexivity|]. split; [exact Hsuccess|].
        split; [exact Hdata|]. split; [reflexivity|].
        assert (granted_session d (localStorage w1)
                = granted_session d (localStorage w)) as Hg.
        { destruct Hshape as [->|(_ & token & ->)];
            [reflexivity|apply granted_session_renewed]. }
        split; [exact Hg|].
        destruct (granted_session_keys d (localStorage w1)) as (Ha & Hr & Hu).
        split; [exact Ha|]. split; [exact Hr|]. split; [exact Hu|].
        split.
        -- erewrite getStoredUser_of_granted; [reflexivity|exact Hg].
        -- erewrite <- isAuthenticated_of_granted; [reflexivity|exact Hg].
      * eexists. split; [reflexivity|]. cbn beta iota.
        split; [intros b' d' Hb' _ Hd'; congruence|].
        split; [now apply or_else_truthy|].
        split; [exact Hkeys|].
        intros Hno. destruct Hshape as [H|(Hyes & _)]; [exact H|congruence].
    + eexists. split; [reflexivity|]. cbn beta iota.
      split; [intros b' d' Hb' Hs' _; congruence|].
      split; [now apply or_else_truthy|].
      split; [exact Hkeys|].
      intros Hno. destruct Hshape as [H|(Hyes & _)]; [exact H|congruence].
  - monad; fields.
    eexists. split; [reflexivity|]. cbn beta iota.
    split; [intros b' d' Hb' _ _; discriminate|].
    split; [now apply or_else_truthy|].
    split; [exact Hkeys|].
    intros Hno. destruct Hshape as [H|(Hyes & _)]; [exact H|congruence].
Qed.

End session_facts.

(** X16.  [login] and [register] never throw.  Each first sends its POST
    request, with the credentials as the JSON body.  It reports success
    exactly when [apiRequest] gives it a reply with [success] and
    [data]; for a visitor without an access token that is the JSON body
    of the reply to that request, when its status is ok.  On success the
    access token, the refresh token and the user of that [data] are what
    is stored under the three keys (the text [undefined] for one that
    the reply does not have), [getStoredUser()] reads the user of the
    reply back, and [isAuthenticated()] is true unless the access token
    is the empty text.  On a failure the message is not empty, no key of
    the storage but [accessToken] has changed, and nothing at all has
    changed for a visitor who held no access token. *)
Theorem login_and_register_store_a_session_or_nothing
  (w : World) (email password nombre_completo : string)
  (telefono : option string) :
  stores_session_or_nothing (AuthService.login email password)
    "/auth/login" (login_body email password) w /\
  stores_session_or_nothing
    (AuthService.register email password nombre_completo telefono)
    "/auth/register"
    (register_body email password nombre_completo telefono) w.
Proof.
  split.
  - rewrite login_is_sign_in. now apply sign_in_stores_session_or_nothing.
  - rewrite register_is_sign_in. now apply sign_in_stores_session_or_nothing.
Qed.

Lemma login_and_register_store_a_session_or_nothing_witness :
  let good := AuthService.login "ana@example.com" "Secreto1" in
  let bad := AuthService.login "ana@example.com" "secreto" in
  outcome good Example.visitor
  = Return (AuthService.Succeeded (Some Example.user)) /\
  localStorage (run good Example.visitor) !! "accessToken" = Some "t1" /\
  localStorage (run good Example.visitor) !! "refreshToken" = Some "r1" /\
  AuthService.getStoredUser (run good Example.visitor)
  = (Return Example.user, run good Example.visitor) /\
  outcome bad Example.visitor
  = Return (AuthService.Failed "Credenciales inválidas") /\
  localStorage (run bad Example.visitor) = localStorage Example.visitor.
Proof.
  intros good bad.
  pose proof (login_and_register_store_a_session_or_nothing Example.visitor
                "ana@example.com" "Secreto1" EmptyString None)
    as ((_ & _ & result & Ho & Hgood) & _).
  pose proof (login_and_register_store_a_session_or_nothing Example.visitor
                "ana@example.com" "secreto" EmptyString None)
    as ((_ & _ & result' & Ho' & Hbad) & _).
  fold good in Ho, Hgood. fold bad in Ho', Hbad.
  assert (outcome good Example.visitor
          = Return (AuthService.Succeeded (Some Example.user))) as Hg
    by reflexivity.
  assert (outcome bad Example.visitor
          = Return (AuthService.Failed "Credenciales inválidas")) as Hb
    by reflexivity.
  rewrite Hg in Ho. injection Ho as <-.
  rewrite Hb in Ho'. injection Ho' as <-.
  destruct Hgood as (b & d & Hreply & _ & Hd & _ & _ & Ha & Hr & _ & Hread & _).
  assert (outcome
            (AuthService.apiRequest "/auth/login" "POST"
               (Some (login_body "ana@example.com" "Secreto1")))
            Example.visitor
          = Return {| success := true; message := None;
                      data := Some (SessionData (Some "t1") (Some "r1")
                                      (Some Example.user)) |}) as Hreply'
    by reflexivity.
  rewrite Hreply' in Hreply. injection Hreply as <-.
  cbn [data] in Hd. injection Hd as <-.
  destruct Hbad as (_ & _ & _ & Hsame).
  split; [exact Hg|]. split; [exact Ha|]. split; [exact Hr|].
  split; [exact Hread|]. split; [exact Hb|].
  apply Hsame. reflexivity.
Defined.

Lemma parse_literal_other c r :
  Ascii.eqb c "t" = false -> Ascii.eqb c "f" = false ->
  Ascii.eqb c "n" = false ->
  JSON.parse_literal (String c r) = None.
Proof.
  destruct c as [[] [] [] [] [] [] [] []]; cbn; intros Ht Hf Hn;
    try reflexivity; discriminate.
Qed.

Lemma parse_begins_no_value s : begins_no_value s = true -> JSON.parse s = None.
Proof.
  unfold begins_no_value, JSON.parse. cbn [JSON.parse_value].
  destruct (JSON.skip_ws s) as [|c r]; [reflexivity|].
  intros H. apply negb_true_iff in H. rewrite !orb_false_iff in H.
  destruct H as (((((((Hd & Hm) & Hq) & Hb) & Hc) & Ht) & Hf) & Hn).
  rewrite Hd, Hm, Hq, Hb, Hc. cbn [orb].
  now rewrite parse_literal_other.
Qed.

(** X17.  [getStoredUser] never throws and changes nothing.  It reads
    back whatever [JSON.stringify] wrote under [currentUser]; it gives
    [null] when nothing is stored, when the empty text is stored, and
    when the stored text begins with a character that no JSON value
    begins with, as the text [undefined] that a reply without a user
    leaves. *)
Theorem getStoredUser_reads_back (w : World) :
  (exists v, AuthService.getStoredUser w = (Return v, w)) /\
  (forall u, localStorage w !! "currentUser" = Some (JSON.stringify u) ->
             AuthService.getStoredUser w = (Return u, w)) /\
  (truthy (localStorage w !! "currentUser") = false ->
   AuthService.getStoredUser w = (Return JNull, w)) /\
  (forall s, localStorage w !! "currentUser" = Some s ->
             begins_no_value s = true ->
             AuthService.getStoredUser w = (Return JNull, w)) /\
  (localStorage w !! "currentUser" = Some "undefined" ->
   AuthService.getStoredUser w = (Return JNull, w)).
Proof.
  unfold AuthService.getStoredUser. monad.
  split; [|split; [|split; [|split]]].
  - destruct (truthy (localStorage w !! "currentUser")); [|eauto].
    destruct (JSON.parse _); monad; eauto.
  - intros u ->. cbn [truthy default from_option id]. unfold Datatypes.id.
    rewrite stringify_truthy. monad. now rewrite parse_stringify.
  - intros ->. reflexivity.
  - intros s -> Hs. cbn [truthy default from_option id]. unfold Datatypes.id.
    destruct (truthy_string s); [|reflexivity]. monad.
    now rewrite (parse_begins_no_value s Hs).
  - intros ->. reflexivity.
Qed.

Lemma getStoredUser_reads_back_witness :
  AuthService.getStoredUser (Example.session true)
  = (Return Example.user, Example.session true) /\
  AuthService.getStoredUser Example.shop = (Return JNull, Example.shop) /\
  AuthService.getStoredUser
    (set_localStorage (insert "currentUser" "  <html>") Example.shop)
  = (Return JNull,
     set_localStorage (insert "currentUser" "  <html>") Example.shop).
Proof.
  pose proof (getStoredUser_reads_back (Example.session true))
    as (_ & Hback & _).
  pose proof (getStoredUser_reads_back Example.shop) as (_ & _ & Hnone & _).
  pose proof (getStoredUser_reads_back
                (set_localStorage (insert "currentUser" "  <html>") Example.shop))
    as (_ & _ & _ & Hbad & _).
  split; [exact (Hback Example.user eq_refl)|].
  split; [exact (Hnone eq_refl)|].
  exact (Hbad _ eq_refl eq_refl).
Defined.

(* ===================================================================== *)
(** ** The quantities of the cart *)
(* ===================================================================== *)

Section cart_quantities.






End cart_quantities.



(* ===================================================================== *)
(** ** The carousel *)
(* ===================================================================== *)

Section carousel_facts.

Variable totalSlides : Z.
Hypothesis some_slides : 0 < totalSlides.

Lemma nextSlide_slide c :
  slide_of totalSlides c -> slide_of totalSlides (Carousel.nextSlide totalSlides c).
Proof.
  unfold slide_of, Carousel.nextSlide. intros Hc.
  rewrite Z.rem_mod_nonneg by lia. apply Z.mod_pos_bound. lia.
Qed.

Lemma prevSlide_slide c :
  slide_of totalSlides c -> slide_of totalSlides (Carousel.prevSlide totalSlides c).
Proof.
  unfold slide_of, Carousel.prevSlide. intros Hc.
  rewrite Z.rem_mod_nonneg by lia. apply Z.mod_pos_bound. lia.
Qed.

Lemma nextSlide_eq c :
  slide_of totalSlides c ->
  Carousel.nextSlide totalSlides c = if c + 1 =? totalSlides then 0 else c + 1.
Proof.
  unfold slide_of, Carousel.nextSlide. intros Hc.
  rewrite Z.rem_mod_nonneg by lia.
  destruct (c + 1 =? totalSlides) eqn:E.
  - apply Z.eqb_eq in E. rewrite E. apply Z.mod_same. lia.
  - apply Z.eqb_neq in E. apply Z.mod_small. lia.
Qed.

Lemma prevSlide_eq c :
  slide_of totalSlides c ->
  Carousel.prevSlide totalSlides c = if c =? 0 then totalSlides - 1 else c - 1.
Proof.
  unfold slide_of, Carousel.prevSlide. intros Hc.
  rewrite Z.rem_mod_nonneg by lia.
  destruct (c =? 0) eqn:E.
  - apply Z.eqb_eq in E. subst c. rewrite Z.mod_small by lia. lia.
  - apply Z.eqb_neq in E.
    replace (c - 1 + totalSlides) with (c - 1 + 1 * totalSlides) by lia.
    rewrite Z.mod_add by lia. apply Z.mod_small. lia.
Qed.

Lemma handle_slide c e :
  slide_of totalSlides c -> event_of totalSlides e ->
  slide_of totalSlides (Carousel.handle totalSlides c e).
Proof.
  intros Hc He. destruct e as [| |i]; cbn [Carousel.handle].
  - now apply nextSlide_slide.
  - now apply prevSlide_slide.
  - exact He.
Qed.

Lemma active_dots_below n c :
  (Z.of_nat n <= c) ->
  List.filter (fun index => index =? c) (map Z.of_nat (seq 0 n)) = [].
Proof.
  induction n as [|n IH]; intros Hc; [reflexivity|].
  rewrite seq_S, map_app, List.filter_app, IH by lia.
  cbn [map List.filter plus app].
  destruct (Z.of_nat n =? c) eqn:E; [apply Z.eqb_eq in E; lia|reflexivity].
Qed.

Lemma active_dots_one n c :
  0 <= c < Z.of_nat n ->
  List.filter (fun index => index =? c) (map Z.of_nat (seq 0 n)) = [c].
Proof.
  induction n as [|n IH]; intros Hc; [lia|].
  rewrite seq_S, map_app, List.filter_app. cbn [map List.filter plus].
  destruct (Z.of_nat n =? c) eqn:E.
  - apply Z.eqb_eq in E. rewrite active_dots_below by lia. now rewrite E.
  - apply Z.eqb_neq in E. rewrite IH by lia. reflexivity.
Qed.

End carousel_facts.

Section carousel_page.

Variable totalSlides : Z.
Hypothesis some_slides : 0 < totalSlides.

Lemma step_on_slides p ke :
  Forall (slide_of totalSlides) (Carousel.installed p) ->
  slide_of totalSlides (Carousel.shown p) ->
  event_of totalSlides (snd ke) ->
  Forall (slide_of totalSlides)
    (Carousel.installed (Carousel.step totalSlides p ke)) /\
  slide_of totalSlides (Carousel.shown (Carousel.step totalSlides p ke)) /\
  In (Carousel.shown (Carousel.step totalSlides p ke))
    (Carousel.shown p :: Carousel.installed (Carousel.step totalSlides p ke)) /\
  length (Carousel.installed (Carousel.step totalSlides p ke))
  = length (Carousel.installed p).
Proof.
  intros Hall Hshown He. unfold Carousel.step.
  destruct (Carousel.installed p !! fst ke) as [c|] eqn:Hk;
    cbn [Carousel.installed Carousel.shown].
  - assert (slide_of totalSlides c) as Hc
      by (rewrite List.Forall_forall in Hall; apply Hall;
          apply list_elem_of_In; now apply (list_elem_of_lookup_2 _ (fst ke))).
    pose proof (handle_slide totalSlides some_slides c (snd ke) Hc He) as Hm.
    split; [now apply Forall_insert|]. split; [exact Hm|].
    split; [|apply length_insert].
    right. apply list_elem_of_In.
    apply (list_elem_of_lookup_2 _ (fst ke)).
    apply list_lookup_insert_eq. now apply (lookup_lt_Some _ _ c).
  - split; [exact Hall|]. split; [exact Hshown|]. split; [now left|reflexivity].
Qed.

End carousel_page.

(** X20.  Each installation of the carousel keeps a current slide of its
    own.  On a page of one or more slides where every installation is on
    a slide, every installation is still on a slide after any sequence
    of steps forward, steps back and clicks on a dot, by any of them; the
    slide shown is one of the slides, that of the installation that
    moved last, whose move leaves the others where they were; and each
    installation marks, among its dots, exactly the dot of its current
    slide.  For one installation, a step forward
    goes to the next slide and from the last to the first, a step back
    is its inverse, and as many steps forward as there are slides lead
    back to the same slide.  The page installs the carousel twice: when
    the timer of the first installation then steps, the strip shows the
    second slide while the dot marked on the page is the first. *)
Theorem carousel_stays_on_a_slide
  (totalSlides : Z) (p : Carousel.Page)
  (events : list (nat * Carousel.Event)) :
  0 < totalSlides ->
  Forall (slide_of totalSlides) (Carousel.installed p) ->
  slide_of totalSlides (Carousel.shown p) ->
  Forall (fun ke => event_of totalSlides (snd ke)) events ->
  let p' := fold_left (Carousel.step totalSlides) events p in
  Forall (slide_of totalSlides) (Carousel.installed p') /\
  slide_of totalSlides (Carousel.shown p') /\
  length (Carousel.installed p') = length (Carousel.installed p) /\
  (forall k currentSlide event,
     Carousel.installed p' !! k = Some currentSlide ->
     let p'' := Carousel.step totalSlides p' (k, event) in
     Carousel.shown p'' = Carousel.handle totalSlides currentSlide event /\
     Carousel.installed p'' !! k = Some (Carousel.shown p'') /\
     (forall k', k' <> k ->
        Carousel.installed p'' !! k' = Carousel.installed p' !! k')) /\
  (forall currentSlide,
     In currentSlide (Carousel.installed p') ->
     Carousel.active_dots totalSlides currentSlide = [currentSlide] /\
     Carousel.nextSlide totalSlides currentSlide
     = (if currentSlide + 1 =? totalSlides then 0 else currentSlide + 1) /\
     Carousel.prevSlide totalSlides (Carousel.nextSlide totalSlides currentSlide)
     = currentSlide /\
     Carousel.nextSlide totalSlides (Carousel.prevSlide totalSlides currentSlide)
     = currentSlide /\
     fold_left (Carousel.handle totalSlides)
       (repeat Carousel.Next (Z.to_nat totalSlides)) currentSlide
     = currentSlide) /\
  (1 < totalSlides ->
   let ticked := Carousel.step totalSlides Carousel.loaded (0%nat, Carousel.Next) in
   Carousel.shown ticked = 1 /\ Carousel.marked ticked = Some 0).
Proof.
  intros Htotal Hall Hshown Hevents p'.
  assert (Forall (slide_of totalSlides) (Carousel.installed p') /\
          slide_of totalSlides (Carousel.shown p') /\
          length (Carousel.installed p') = length (Carousel.installed p))
    as (Hall' & Hshown' & Hlen).
  { subst p'. revert p Hall Hshown.
    induction Hevents as [|ke events He _ IH]; intros p Hall Hshown;
      [split; [exact Hall|split; [exact Hshown|reflexivity]]|].
    cbn [fold_left].
    destruct (step_on_slides totalSlides Htotal p ke Hall Hshown He)
      as (H1 & H2 & _ & H4).
    destruct (IH _ H1 H2) as (H5 & H6 & H7).
    split; [exact H5|]. split; [exact H6|]. now rewrite H7. }
  split; [exact Hall'|]. split; [exact Hshown'|]. split; [exact Hlen|].
  split.
  { intros k e event Hk p''. subst p''. unfold Carousel.step. cbn [fst snd].
    rewrite Hk. cbn [Carousel.shown Carousel.installed].
    split; [reflexivity|]. split.
    - apply list_lookup_insert_eq. now apply (lookup_lt_Some _ _ e).
    - intros k' Hk'. now apply list_lookup_insert_ne. }
  split.
  { intros currentSlide Hin.
    assert (slide_of totalSlides currentSlide) as Hc
      by (rewrite List.Forall_forall in Hall'; now apply Hall').
    split.
    { unfold Carousel.active_dots. apply active_dots_one.
      unfold slide_of in Hc. lia. }
    split; [now apply nextSlide_eq|].
    split.
    { rewrite (prevSlide_eq totalSlides Htotal) by now apply nextSlide_slide.
      rewrite (nextSlide_eq totalSlides Htotal) by assumption.
      unfold slide_of in Hc.
      destruct (currentSlide + 1 =? totalSlides) eqn:E.
      - apply Z.eqb_eq in E. cbn. lia.
      - apply Z.eqb_neq in E.
        destruct (currentSlide + 1 =? 0) eqn:E'; [apply Z.eqb_eq in E'|]; lia. }
    split.
    { rewrite (nextSlide_eq totalSlides Htotal) by now apply prevSlide_slide.
      rewrite (prevSlide_eq totalSlides Htotal) by assumption.
      unfold slide_of in Hc.
      destruct (currentSlide =? 0) eqn:E.
      - apply Z.eqb_eq in E. rewrite Z.sub_add, Z.eqb_refl. lia.
      - apply Z.eqb_neq in E.
        destruct (currentSlide - 1 + 1 =? totalSlides) eqn:E';
          [apply Z.eqb_eq in E'|]; lia. }
    assert (forall n c, 0 <= c ->
              fold_left (Carousel.handle totalSlides) (repeat Carousel.Next n) c
              = (c + Z.of_nat n) mod totalSlides \/ n = O) as Hsteps.
    { induction n as [|n IH]; intros c Hc0; [now right|]. left.
      cbn [repeat fold_left Carousel.handle]. unfold Carousel.nextSlide at 1.
      rewrite Z.rem_mod_nonneg by lia.
      destruct (IH ((c + 1) mod totalSlides)) as [->| ->].
      - pose proof (Z.mod_pos_bound (c + 1) totalSlides Htotal). lia.
      - rewrite Zplus_mod_idemp_l. f_equal. lia.
      - cbn [repeat fold_left]. f_equal; lia. }
    unfold slide_of in Hc.
    destruct (Hsteps (Z.to_nat totalSlides) currentSlide) as [->|H]; [lia| |lia].
    rewrite Z2Nat.id by lia.
    replace (currentSlide + totalSlides)
      with (currentSlide + 1 * totalSlides) by lia.
    rewrite Z.mod_add by lia. apply Z.mod_small. lia. }
  intros Htwo ticked. subst ticked.
  unfold Carousel.step, Carousel.loaded, Carousel.install, Carousel.marked.
  cbn. unfold Carousel.nextSlide. cbn [Z.add].
  rewrite Z.rem_small by lia. split; reflexivity.
Qed.

Lemma carousel_stays_on_a_slide_witness :
  let p' := fold_left (Carousel.step 3)
              [(0%nat, Carousel.Next); (1%nat, Carousel.Next);
               (1%nat, Carousel.Next); (1%nat, Carousel.Next);
               (1%nat, Carousel.Dot 2); (0%nat, Carousel.Prev)]
              Carousel.loaded in
  Carousel.installed p' = [0; 2] /\
  Carousel.shown p' = 0 /\ Carousel.marked p' = Some 2 /\
  Forall (slide_of 3) (Carousel.installed p').
Proof.
  intros p'.
  assert (0 < 3) as Htotal by lia.
  assert (Forall (slide_of 3) (Carousel.installed Carousel.loaded)) as Hall
    by (repeat constructor; unfold slide_of; lia).
  assert (slide_of 3 (Carousel.shown Carousel.loaded)) as Hshown
    by (unfold slide_of; cbn; lia).
  assert (Forall (fun ke => event_of 3 (snd ke))
            [(0%nat, Carousel.Next); (1%nat, Carousel.Next);
             (1%nat, Carousel.Next); (1%nat, Carousel.Next);
             (1%nat, Carousel.Dot 2); (0%nat, Carousel.Prev)]) as Hevents
    by (repeat constructor; unfold slide_of; cbn; lia).
  pose proof (carousel_stays_on_a_slide 3 Carousel.loaded _
                Htotal Hall Hshown Hevents) as (Hslides & _).
  split; [reflexivity|]. split; [reflexivity|]. split; [reflexivity|].
  exact Hslides.
Defined.

(* ===================================================================== *)
(** ** The checks of the forms *)
(* ===================================================================== *)

Section regexp_facts.

Import RegExp.

Lemma append_cons c s k : String c s +:+ k = String c (s +:+ k).
Proof. reflexivity. Qed.

Lemma append_empty k : EmptyString +:+ k = k.
Proof. reflexivity. Qed.

Lemma matches_seq r1 r2 s k :
  matches (Seq r1 r2) s k = matches r1 s (fun s' => matches r2 s' k).
Proof. reflexivity. Qed.

Lemma matches_class p s k :
  matches (Class p) s k = true <->
  exists c rest, s = String c rest /\ p c = true /\ k rest = true.
Proof.
  cbn [matches]. destruct s as [|c s'].
  - split; [discriminate|]. now intros (c & rest & H & _).
  - rewrite andb_true_iff. split.
    + intros (Hp & Hk). eauto.
    + intros (c' & rest & H & Hp & Hk). injection H as -> ->. now split.
Qed.

Lemma matches_eol s k :
  matches Eol s k = true <-> s = EmptyString /\ k EmptyString = true.
Proof.
  cbn [matches]. destruct s as [|c s'].
  - split; [now split|now intros (_ & H)].
  - split; [discriminate|now intros (H & _)].
Qed.

Lemma matches_ahead r s k :
  matches (Ahead r) s k = true <->
  matches r s (fun _ => true) = true /\ k s = true.
Proof. cbn [matches]. apply andb_true_iff. Qed.

(** A repetition of a class takes any number of leading characters of
    the class. *)
Lemma star_loop p k n s :
  (String.length s <= n)%nat ->
  (fix loop (n : nat) (s : string) {struct n} : bool :=
     match n with
     | O => k s
     | S n' =>
         matches (Class p) s
           (fun s' => (String.length s' <? String.length s)%nat && loop n' s')
         || k s
     end) n s = true <->
  exists pre rest, s = pre +:+ rest /\ all_chars p pre = true /\ k rest = true.
Proof.
  revert s. induction n as [|n IH]; intros s Hn.
  - destruct s as [|c s']; [|cbn [String.length] in Hn; lia]. split.
    + intros Hk. exists EmptyString, EmptyString. now repeat split.
    + intros (pre & rest & H & _ & Hk).
      destruct pre; [|discriminate H]. rewrite append_empty in H. now subst rest.
  - cbn [matches]. destruct s as [|c s'].
    + cbn [orb]. split.
      * intros Hk. exists EmptyString, EmptyString. now repeat split.
      * intros (pre & rest & H & _ & Hk).
        destruct pre; [|discriminate H]. rewrite append_empty in H.
        now subst rest.
    + cbn [String.length] in *.
      assert ((String.length s' <? S (String.length s'))%nat = true) as ->
        by (apply Nat.ltb_lt; lia).
      cbn [andb]. rewrite orb_true_iff, andb_true_iff, IH by lia. split.
      * intros [(Hp & pre & rest & -> & Hpre & Hk)|Hk].
        -- exists (String c pre), rest. rewrite append_cons.
           cbn [all_chars]. rewrite Hp, Hpre. now repeat split.
        -- exists EmptyString, (String c s'). now repeat split.
      * intros (pre & rest & H & Hpre & Hk). destruct pre as [|c' pre].
        -- rewrite append_empty in H. subst rest. now right.
        -- rewrite append_cons in H. injection H as -> ->.
           cbn [all_chars] in Hpre. apply andb_true_iff in Hpre as (Hp & Hpre).
           left. split; [exact Hp|]. now exists pre, rest.
Qed.

Lemma matches_star_class p s k :
  matches (Star (Class p)) s k = true <->
  exists pre rest, s = pre +:+ rest /\ all_chars p pre = true /\ k rest = true.
Proof. apply star_loop. lia. Qed.

Lemma matches_plus_class p s k :
  matches (Plus (Class p)) s k = true <->
  exists pre rest,
    s = pre +:+ rest /\ pre <> EmptyString /\ all_chars p pre = true /\
    k rest = true.
Proof.
  unfold Plus. rewrite matches_seq, matches_class. split.
  - intros (c & s' & -> & Hp & H).
    apply matches_star_class in H as (pre & rest & -> & Hpre & Hk).
    exists (String c pre), rest. rewrite append_cons. cbn [all_chars].
    rewrite Hp, Hpre. now repeat split.
  - intros (pre & rest & -> & Hne & Hpre & Hk).
    destruct pre as [|c pre]; [congruence|].
    cbn [all_chars] in Hpre. apply andb_true_iff in Hpre as (Hp & Hpre).
    exists c, (pre +:+ rest). rewrite append_cons.
    split; [reflexivity|]. split; [exact Hp|].
    apply matches_star_class. now exists pre, rest.
Qed.

Lemma search_spec r s :
  search r s = true <->
  exists pre rest, s = pre +:+ rest /\ matches r rest (fun _ => true) = true.
Proof.
  induction s as [|c s IH]; cbn [search].
  - rewrite orb_false_r. split.
    + intros H. now exists EmptyString, EmptyString.
    + intros (pre & rest & H & Hm). destruct pre; [|discriminate H].
      rewrite append_empty in H. now subst rest.
  - rewrite orb_true_iff, IH. split.
    + intros [H|(pre & rest & -> & Hm)].
      * now exists EmptyString, (String c s).
      * exists (String c pre), rest. now rewrite append_cons.
    + intros (pre & rest & H & Hm). destruct pre as [|c' pre].
      * rewrite append_empty in H. subst rest. now left.
      * rewrite append_cons in H. injection H as -> ->. right. now exists pre, rest.
Qed.

Lemma some_char_append p a b :
  some_char p (a +:+ b) = some_char p a || some_char p b.
Proof.
  induction a as [|c a IH]; [reflexivity|].
  rewrite append_cons. cbn [some_char]. now rewrite IH, orb_assoc.
Qed.

Lemma all_chars_append p a b :
  all_chars p (a +:+ b) = all_chars p a && all_chars p b.
Proof.
  induction a as [|c a IH]; [reflexivity|].
  rewrite append_cons. cbn [all_chars]. now rewrite IH, andb_assoc.
Qed.

Lemma some_char_split p s :
  some_char p s = true ->
  exists pre c rest, s = pre +:+ String c rest /\ p c = true.
Proof.
  induction s as [|c s IH]; cbn [some_char]; [discriminate|].
  destruct (p c) eqn:Hp.
  - intros _. now exists EmptyString, c, s.
  - cbn [orb]. intros H. destruct (IH H) as (pre & c' & rest & -> & Hc').
    exists (String c pre), c', rest. now rewrite append_cons.
Qed.

(** [(?=.*p)], where no line ends in the text: some character is of the
    class. *)
Lemma reaches_some p s :
  matches (Seq (Star (Class dot)) (Class p)) s (fun _ => true) = true ->
  some_char p s = true.
Proof.
  rewrite matches_seq. intros H.
  apply matches_star_class in H as (pre & rest & -> & _ & H).
  apply matches_class in H as (c & rest' & -> & Hp & _).
  rewrite some_char_append. cbn [some_char]. rewrite Hp.
  now rewrite orb_true_r.
Qed.

Lemma some_reaches p s :
  all_chars dot s = true -> some_char p s = true ->
  matches (Seq (Star (Class dot)) (Class p)) s (fun _ => true) = true.
Proof.
  intros Hdot Hsome. rewrite matches_seq. apply matches_star_class.
  destruct (some_char_split p s Hsome) as (pre & c & rest & -> & Hp).
  rewrite all_chars_append in Hdot. apply andb_true_iff in Hdot as (Hpre & _).
  exists pre, (String c rest). split; [reflexivity|]. split; [exact Hpre|].
  apply matches_class. now exists c, rest.
Qed.

Lemma passwordRegex_some s :
  test passwordRegex s = true ->
  some_char lower s = true /\ some_char upper s = true /\
  some_char digit s = true.
Proof.
  unfold test, passwordRegex. cbn [anchored body]. intros H.
  apply search_spec in H as (pre & rest & -> & H).
  rewrite matches_seq in H.
  apply matches_ahead in H as (Hl & H). cbn beta in H. rewrite matches_seq in H.
  apply matches_ahead in H as (Hu & H). cbn beta in H.
  apply matches_ahead in H as (Hd & _).
  apply reaches_some in Hl, Hu, Hd.
  rewrite !some_char_append, Hl, Hu, Hd, !orb_true_r. now repeat split.
Qed.

Lemma some_passwordRegex s :
  all_chars dot s = true ->
  some_char lower s = true -> some_char upper s = true ->
  some_char digit s = true ->
  test passwordRegex s = true.
Proof.
  intros Hdot Hl Hu Hd. unfold test, passwordRegex. cbn [anchored body].
  apply search_spec. exists EmptyString, s. split; [reflexivity|].
  rewrite matches_seq.
  apply matches_ahead. split; [now apply some_reaches|].
  cbn beta. rewrite matches_seq.
  apply matches_ahead. split; [now apply some_reaches|].
  cbn beta.
  apply matches_ahead. split; [now apply some_reaches|reflexivity].
Qed.

Lemma isValidEmail_iff email :
  isValidEmail email = true <->
  exists user host tld,
    email = user +:+ "@" +:+ host +:+ "." +:+ tld /\
    email_part user /\ email_part host /\ email_part tld.
Proof.
  unfold isValidEmail, test, emailRegex, email_part. cbn [anchored body]. split.
  - intros H. rewrite matches_seq in H.
    apply matches_plus_class in H as (user & s1 & -> & Hu1 & Hu2 & H).
    cbn beta in H. rewrite matches_seq in H.
    apply matches_class in H as (c1 & s2 & -> & Hc1 & H).
    cbn beta in H. rewrite matches_seq in H.
    apply matches_plus_class in H as (host & s3 & -> & Hh1 & Hh2 & H).
    cbn beta in H. rewrite matches_seq in H.
    apply matches_class in H as (c2 & s4 & -> & Hc2 & H).
    cbn beta in H. rewrite matches_seq in H.
    cbn beta in H.
    apply matches_plus_class in H as (tld & s5 & -> & Ht1 & Ht2 & H).
    apply matches_eol in H as (-> & _).
    apply Ascii.eqb_eq in Hc1, Hc2. subst c1 c2.
    exists user, host, tld. split; [|now repeat split].
    rewrite !append_cons, !append_empty.
    f_equal. f_equal. f_equal. f_equal.
    clear. induction tld as [|c t IH]; [reflexivity|].
    rewrite append_cons. now rewrite IH.
  - intros (user & host & tld & -> & (Hu1 & Hu2) & (Hh1 & Hh2) & (Ht1 & Ht2)).
    cbn beta. rewrite matches_seq. apply matches_plus_class.
    exists user, ("@" +:+ host +:+ "." +:+ tld).
    split; [reflexivity|]. split; [exact Hu1|]. split; [exact Hu2|].
    cbn beta. rewrite matches_seq. apply matches_class.
    exists "@"%char, (host +:+ "." +:+ tld).
    split; [reflexivity|]. split; [reflexivity|].
    cbn beta. rewrite matches_seq. apply matches_plus_class.
    exists host, ("." +:+ tld).
    split; [reflexivity|]. split; [exact Hh1|]. split; [exact Hh2|].
    cbn beta. rewrite matches_seq. apply matches_class.
    exists "."%char, tld.
    split; [reflexivity|]. split; [reflexivity|].
    cbn beta. apply matches_plus_class.
    exists tld, EmptyString. split.
    + clear. induction tld as [|c t IH]; [reflexivity|].
      rewrite append_cons. now rewrite <- IH.
    + split; [exact Ht1|]. split; [exact Ht2|]. reflexivity.
Qed.

End regexp_facts.

Section form_checks.

Import RegExp.

Lemma occurrences_append a s t :
  occurrences a (s +:+ t) = (occurrences a s + occurrences a t)%nat.
Proof.
  induction s as [|c s IH]; [reflexivity|].
  rewrite append_cons. cbn [occurrences]. rewrite IH. lia.
Qed.

Lemma email_part_clean s :
  all_chars no_space_no_at s = true ->
  some_char space s = false /\ occurrences "@" s = O.
Proof.
  induction s as [|c s IH]; cbn [all_chars some_char occurrences];
    [now split|].
  intros H. apply andb_true_iff in H as (Hc & Hs).
  destruct (IH Hs) as (-> & ->).
  unfold no_space_no_at, char in Hc. apply negb_true_iff in Hc.
  apply orb_false_iff in Hc as (-> & ->). now split.
Qed.

Lemma truthy_string_nonempty s : truthy_string s = true <-> s <> EmptyString.
Proof. destruct s; cbn; split; congruence. Qed.

Lemma isValidEmail_nonempty email :
  isValidEmail email = true -> truthy_string email = true.
Proof. now destruct email. Qed.

End form_checks.

(** X21.  [isValidEmail] accepts exactly the texts of the form
    [user@host.tld] in which [user], [host] and [tld] are not empty and
    hold neither white space nor an [@]; each of them may hold dots.  So
    an accepted text holds no white space and exactly one [@]. *)
Theorem isValidEmail_accepts_user_at_host_dot_tld (email : string) :
  (isValidEmail email = true <->
   exists user host tld,
     email = user +:+ "@" +:+ host +:+ "." +:+ tld /\
     email_part user /\ email_part host /\ email_part tld) /\
  (isValidEmail email = true ->
   some_char RegExp.space email = false /\ occurrences "@" email = 1%nat).
Proof.
  split; [apply isValidEmail_iff|].
  intros H. apply isValidEmail_iff in H
    as (user & host & tld & -> & (_ & Hu) & (_ & Hh) & (_ & Ht)).
  destruct (email_part_clean user Hu) as (Hu1 & Hu2).
  destruct (email_part_clean host Hh) as (Hh1 & Hh2).
  destruct (email_part_clean tld Ht) as (Ht1 & Ht2).
  rewrite !some_char_append, !occurrences_append, Hu1, Hu2, Hh1, Hh2, Ht1, Ht2.
  now split.
Qed.

Lemma isValidEmail_accepts_user_at_host_dot_tld_witness :
  isValidEmail "ana@example.com" = true /\
  isValidEmail "ana@example" = false /\
  isValidEmail "ana maria@example.com" = false /\
  isValidEmail "ana@@example.com" = false /\
  isValidEmail "ana@.com" = false /\
  isValidEmail "ana@example.com.mx" = true /\
  occurrences "@" "ana@example.com" = 1%nat.
Proof.
  pose proof (isValidEmail_accepts_user_at_host_dot_tld "ana@example.com")
    as (_ & H).
  destruct (H eq_refl) as (_ & Hone).
  repeat (split; [reflexivity|]). exact Hone.
Defined.

(** X22.  [handleRegister] goes on to call [register] only if the name
    is not empty, the email is accepted by [isValidEmail], the password
    has eight characters or more, a lower-case letter, an upper-case
    letter and a digit, all three of ASCII, and the confirmation, if the
    form has one that is not empty, equals the password; for a password
    without a line break it does go on under these conditions.
    [handleLogin] goes on to call [login] exactly when the email is
    accepted and the password is not empty. *)
Theorem form_checks_pass_exactly
  (nombre_completo email password : string) (confirmPassword : option string) :
  let conditions :=
    nombre_completo <> EmptyString /\
    isValidEmail email = true /\
    (8 <= String.length password)%nat /\
    some_char RegExp.lower password = true /\
    some_char RegExp.upper password = true /\
    some_char RegExp.digit password = true /\
    (truthy confirmPassword = false \/ confirmPassword = Some password) in
  (handleRegister_checks nombre_completo email password confirmPassword = None ->
   conditions) /\
  (all_chars RegExp.dot password = true -> conditions ->
   handleRegister_checks nombre_completo email password confirmPassword = None) /\
  (handleLogin_checks email password = None <->
   isValidEmail email = true /\ password <> EmptyString).
Proof.
  intros conditions. subst conditions.
  unfold handleRegister_checks, handleLogin_checks.
  split; [|split].
  - destruct (truthy_string nombre_completo) eqn:Hn; [|discriminate].
    destruct (truthy_string email) eqn:He; [|discriminate].
    destruct (truthy_string password) eqn:Hp; [|discriminate].
    cbn [negb orb].
    destruct (isValidEmail email) eqn:Hv; [|discriminate].
    cbn [negb].
    destruct (String.length password <? 8)%nat eqn:Hlen; [discriminate|].
    destruct (RegExp.test passwordRegex password) eqn:Hpol; [|discriminate].
    cbn [negb].
    destruct (passwordRegex_some password Hpol) as (Hl & Hu & Hd).
    apply Nat.ltb_ge in Hlen. apply truthy_string_nonempty in Hn.
    destruct (truthy confirmPassword) eqn:Hc; cbn [andb].
    + destruct (String.eqb password (default EmptyString confirmPassword))
        eqn:Heq; [|discriminate].
      intros _. apply String.eqb_eq in Heq.
      destruct confirmPassword as [c|]; [|discriminate Hc].
      cbn in Heq. subst c. repeat split; auto.
    + intros _. repeat split; auto.
  - intros Hdot (Hn & Hv & Hlen & Hl & Hu & Hd & Hc).
    apply truthy_string_nonempty in Hn. rewrite Hn.
    rewrite (isValidEmail_nonempty email Hv), Hv.
    assert (truthy_string password = true) as ->
      by (destruct password; [cbn in Hlen; lia|reflexivity]).
    cbn [negb orb].
    assert ((String.length password <? 8)%nat = false) as ->
      by (apply Nat.ltb_ge; exact Hlen).
    rewrite (some_passwordRegex password Hdot Hl Hu Hd). cbn [negb].
    destruct Hc as [-> | ->]; [reflexivity|].
    cbn. now rewrite String.eqb_refl, andb_false_r.
  - split.
    + destruct (truthy_string email) eqn:He; [|discriminate].
      destruct (truthy_string password) eqn:Hp; [|discriminate].
      cbn [negb orb].
      destruct (isValidEmail email) eqn:Hv; [|discriminate].
      intros _. split; [reflexivity|]. now apply truthy_string_nonempty.
    + intros (Hv & Hp). apply truthy_string_nonempty in Hp.
      now rewrite (isValidEmail_nonempty email Hv), Hp, Hv.
Qed.

Lemma form_checks_pass_exactly_witness :
  handleRegister_checks "Ana" "ana@example.com" "Secreto1" (Some "Secreto1")
  = None /\
  handleRegister_checks "Ana" "ana@example.com" "Secreto1" (Some EmptyString)
  = None /\
  handleRegister_checks "Ana" "ana@example.com" "secreto1" None
  = Some "La contraseña debe contener al menos una mayúscula, una minúscula y un número".
Proof.
  pose proof (form_checks_pass_exactly "Ana" "ana@example.com" "Secreto1"
                (Some "Secreto1")) as (_ & H1 & _).
  pose proof (form_checks_pass_exactly "Ana" "ana@example.com" "Secreto1"
                (Some EmptyString)) as (_ & H2 & _).
  split; [|split; [|reflexivity]].
  - apply H1; [reflexivity|].
    split; [discriminate|]. split; [reflexivity|].
    split; [apply Nat.leb_le; reflexivity|].
    repeat (split; [reflexivity|]). now right.
  - apply H2; [reflexivity|].
    split; [discriminate|]. split; [reflexivity|].
    split; [apply Nat.leb_le; reflexivity|].
    repeat (split; [reflexivity|]). now left.
Defined.
